(* ===== verification/_CoqProject ===== *)
-Q . S2P
Prelude.v
JsValue.v
UriEncode.v
UriReference.v
CatalogClient.v
Debounce.v
FetchState.v
App.v
Refinement.v
TrendingContract.v
View.v
Pending.v
Progress.v
Display.v
Scheduler.v
ApiKey.v
Logging.v
