(* ===== verification/Prelude.v ===== *)
(** * MovieSearchApp: a verification development of src/src/App.jsx

    The program is one React component, [App] in src/src/App.jsx, and the
    helper [fetchTMDB] above it.  It has four parts that interact through
    React state and the browser's event loop:

    - the Remote Catalog Client, [fetchTMDB] (App.jsx 7-18): builds the URL
      [API_BASE_URL ++ endpoint ++ "&api_key=" ++ API_KEY], calls [fetch],
      throws when [response.ok] is false and otherwise returns
      [await response.json()];
    - the Debounce Scheduler, [useDebounce(() => setDebouncedSearchTerm(searchTerm),
      700, [searchTerm])] (App.jsx 33, timer semantics of react-use);
    - the Search Orchestrator, [fetchMovies] (App.jsx 36-54) run by the effect
      on [debouncedSearchTerm] (App.jsx 72-74);
    - the Trending Orchestrator, [loadTrendingMovies] (App.jsx 57-70) run by the
      mount effect (App.jsx 76-78);
    - the View, the JSX returned by [App] (App.jsx 80-141).

    ** Files and what they model

    - [Prelude] (this file): the error monad [result] used for JavaScript
      exceptions, its notation in [app_scope], the tactics and the hint
      database [app] shared by the development, and the generic lemmas on
      integers (bit operations) and lists.
    - [JsValue]: JavaScript strings as lists of UTF-16 code units ([jsstr]),
      the values that [response.json()] produces ([jsval]), truthiness, the
      operator [||], property access with its TypeError on [null], and the
      expression [data.results || []].
    - [UriEncode]: [encodeURIComponent] as ECMA-262 specifies it (UTF-16 to
      code points, UTF-8, percent-encoding, URIError on an unpaired surrogate),
      with a reference decoder and the round-trip theorem.
    - [UriReference]: the text of ECMA-262's Encode written down with its
      own definitions ([ALWAYS_UNESCAPED], [CodePointAt], the UTF-8 table
      by division, the digits ["0123456789ABCDEF"], the loop [Encode] with
      fuel) and the equivalence of [encodeURIComponent] with it, errors
      included.
    - [CatalogClient]: [fetchTMDB] split at its [await]: the URL it issues
      and the way it turns the network's answer into a value or an exception;
      the endpoint selection of [fetchMovies] and the trending endpoint.
    - [Debounce]: the single timer of [useDebounce] (reset on every change of
      [searchTerm], fires after 700 ms).
    - [FetchState]: the abstract specification of one data stream, the
      tagged union {Idle, Loading, Success, Failure} of the spec, and its
      transitions.
    - [App]: the whole component as a state machine.  The state is a record
      with one field per [useState] hook plus the runtime's part (clock,
      timer, pending fetches, the log of issued requests and of
      [console.error]); the events are a keystroke, the passage of time and
      the settling of one pending fetch.  [fetchMovies] and
      [loadTrendingMovies] are each split into the synchronous part that runs
      up to the first [await] and the continuation that runs when the fetch
      settles; the continuation writes all its state in one step, as the code
      does no write between its two awaits.
    - [Refinement]: the abstraction of each stream's three hooks to a
      [FetchState], the refinement theorem for sequential use, and, with
      overlapping fetches, the exact place where the search stream leaves
      the contract: a late settle ([late_settle]), a search response that
      arrives after another fetch's [finally] turned the spinner off.
    - [TrendingContract]: the invariant of the trending stream in every
      reachable state and its unconditional refinement of [FetchState]
      (no sequential-use assumption: the trending fetch is issued once).
    - [Pending]: the termination of the event loop's own activity:
      without keystrokes, at most (fetches in flight + 2 for a pending
      timeout) steps still change anything.
    - [Progress]: the invariant of the debounce timer (pending while the
      text typed differs from the debounced term, due within 700 ms) and
      its consequence, that 700 ms of quiet bring the debounced term to
      the text typed; and the state of each stream once the fetches in
      flight have answered in issue order.
    - [View]: the two sections of the JSX: spinner, error, list or empty
      message, the top five trending movies with the poster fallback, and
      exactly when the all-movies list throws a TypeError (a list that is
      not an array or holds [null] or [undefined]).
    - [Display]: the agreement of the view with the abstraction of
      [Refinement]: each section renders the [FetchState] that
      [abs_stream] reads from its hooks (spinner, message, list).
    - [ApiKey]: the composition of the client with the state machine:
      on every trace whose keystrokes are JavaScript strings, every request
      issued ends with the parameter [api_key] carrying the configured key
      (["undefined"] when it is not set), whatever was typed.
    - [Logging]: the operational log: [console] only grows, and a stream
      showing its error message has logged an error under its own label.
    - [Scheduler]: the spec's explicit debounce scheduler as a reference
      ([stable_values]: a value is emitted after 700 ms of quiet if it
      differs from the last one emitted) and the refinement theorem: on a
      typing trace App issues exactly the search requests for the emitted
      values.

    ** Theorems (see PROJECT.json for the list of claims)

    Invariants of the state machine proved by induction on the reachable
    states; the functional behaviour of each handler on every branch
    (success, HTTP error, network error, malformed body, [null] body,
    missing [results]); isolation of the two streams; the trending fetch is
    issued exactly once; debounce behaviour on a burst of keystrokes and
    progress of the debounced term from any reachable state; the
    endpoint selection; the search URL carries exactly the two parameters
    [query] and [api_key] and its [query] decodes back to the typed text;
    [encodeURIComponent] throws exactly on an unpaired surrogate and
    equals the independently written Encode of ECMA-262; the refinement
    of the abstract [FetchState] machine (under sequential use for the
    search stream, unconditional for the trending stream) and, with
    overlapping search fetches, the characterisation of the steps that
    leave it (late settles, always rejected by the contract); the event
    loop comes to rest without keystrokes (a bound on the number of
    steps that still do something); every request carries the API key as
    its last parameter; every error message shown is backed by a
    [console.error] entry of its stream; the debounce refines the spec's
    scheduler on every typing trace; the render never throws while the
    responses are well formed, shows at most five trending movies ranked
    from 1 with the poster placeholder exactly for a falsy
    [poster_path], and the all-movies list throws exactly on a list that
    is not an array or holds [null] or [undefined].

    ** Bounds and choices

    Time is a natural number of milliseconds; the quiet period is 700 as in
    the source.  JSON numbers are modelled as integers ([Z]): the code only
    tests them for truthiness and compares [length] with 0.  Two
    functions take fuel.  [CatalogClient.split_all], which reads a URL's
    query string, takes the length of the URL, enough since each split
    consumes at least one code unit ([ApiKey.split_all_last] proves it for
    the last parameter).  [UriReference.Encode] runs the specification's
    loop with the length of the string, enough since each round consumes
    one or two code units ([UriReference.encode_loop_enough]).  Every
    other function is structurally recursive.  The comparison [v > 0] of the view on a string or an object
    (ToPrimitive, ToNumber) is a section variable of [View]: the theorems
    hold for every choice of it.

    ** Not modelled

    The imported presentational components [Search], [Spinner] and
    [MovieCard] (their sources are not in the repository snapshot), the CSS,
    the API key loader ([import.meta.env]) which is a parameter of the model,
    React's StrictMode double mount (main.jsx is not in the snapshot), and
    the network itself, whose answers are inputs of the model. *)

From stdpp Require Import base list options.
From Stdlib Require Import ZArith Lia.

(** ** Results: JavaScript exceptions as values *)

Inductive result (E A : Type) : Type :=
| Ok (a : A)
| Err (e : E).
Arguments Ok {E A} a.
Arguments Err {E A} e.

Definition res_bind {E A B} (r : result E A) (f : A -> result E B) : result E B :=
  match r with
  | Ok a => f a
  | Err e => Err e
  end.

Definition res_map {E A B} (f : A -> B) (r : result E A) : result E B :=
  match r with
  | Ok a => Ok (f a)
  | Err e => Err e
  end.

Declare Scope app_scope.
Delimit Scope app_scope with app.
Notation "x <- r ;; k" := (res_bind r (fun x => k))
  (at level 100, r at next level, right associativity) : app_scope.
Open Scope app_scope.

Lemma res_bind_Ok {E A B} (r : result E A) (f : A -> result E B) b :
  res_bind r f = Ok b <-> exists a, r = Ok a /\ f a = Ok b.
Proof.
  destruct r as [a|e]; simpl; split; [eauto | | done |].
  - by intros (? & [= ->] & ?).
  - intros (? & ? & ?); congruence.
Qed.

Lemma res_bind_Err {E A B} (r : result E A) (f : A -> result E B) e :
  res_bind r f = Err e <-> r = Err e \/ exists a, r = Ok a /\ f a = Err e.
Proof.
  destruct r as [a|e']; simpl; split.
  - intros H. right. eauto.
  - intros [? | (? & [= ->] & ?)]; done.
  - intros [= ->]. by left.
  - intros [? | (? & ? & ?)]; congruence.
Qed.

Lemma res_map_Err {E A B} (f : A -> B) (r : result E A) e :
  res_map f r = Err e <-> r = Err e.
Proof. destruct r; simpl; split; congruence. Qed.

Lemma res_map_Ok {E A B} (f : A -> B) (r : result E A) b :
  res_map f r = Ok b <-> exists a, r = Ok a /\ b = f a.
Proof.
  destruct r as [a|e]; simpl; split.
  - intros [= <-]. eauto.
  - by intros (? & [= ->] & ->).
  - discriminate.
  - by intros (? & ? & _).
Qed.

(** ** Tactics and hints *)

Create HintDb app discriminated.
Create Rewrite HintDb app_rw.

Ltac invc H := inversion H; subst; clear H.

(** Case analysis on the [result]s and [if]s a goal is stuck on. *)
Ltac case_res :=
  repeat match goal with
  | |- context [match ?r with Ok _ => _ | Err _ => _ end] =>
      destruct r eqn:?
  | H : context [match ?r with Ok _ => _ | Err _ => _ end] |- _ =>
      destruct r eqn:?
  end.

(** An equivalence between an equation on a computed value and a
    disjunction of cases: forward by search, backward by destructing the
    cases and discharging the constructor equations. *)
Ltac iff_cases :=
  split;
  [ intros Heq; simplify_eq; eauto 10
  | intros ?;
    repeat match goal with
    | H : _ \/ _ |- _ => destruct H
    | H : _ /\ _ |- _ => destruct H
    | H : ex _ |- _ => destruct H
    end;
    simplify_eq;
    repeat match goal with
    | H1 : ?x = ?a, H2 : ?x = ?b |- _ => rewrite H1 in H2; simplify_eq
    end;
    try done; congruence ].

(** ** Integers: the bit operations the UTF-8 encoder uses *)

Open Scope Z_scope.

Lemma lor_high_low (a b k : Z) :
  0 <= k -> 0 <= b < 2 ^ k -> Z.lor (a * 2 ^ k) b = a * 2 ^ k + b.
Proof.
  intros Hk Hb. rewrite Z.add_nocarry_lor; [done |].
  apply Z.bits_inj'. intros i Hi. rewrite Z.land_spec, Z.bits_0.
  destruct (Z.lt_ge_cases i k).
  - by rewrite Z.mul_pow2_bits_low.
  - destruct (Z.eq_dec b 0) as [->|]; [by rewrite Z.bits_0, andb_false_r |].
    rewrite (Z.bits_above_log2 b i); [by rewrite andb_false_r | lia |].
    enough (Z.log2 b < k) by lia. apply Z.log2_lt_pow2; lia.
Qed.

Lemma land_low_mask (a k : Z) : 0 <= k -> Z.land a (2 ^ k - 1) = a mod 2 ^ k.
Proof. intros Hk. rewrite <- Z.land_ones by done. f_equal. by rewrite Z.ones_equiv. Qed.

(** Case analysis on every integer comparison of the goal. *)
Ltac zcase :=
  repeat match goal with
  | |- context [(?a <=? ?b)%Z] => destruct (Z.leb_spec a b)
  | |- context [(?a <? ?b)%Z] => destruct (Z.ltb_spec a b)
  | |- context [(?a =? ?b)%Z] => destruct (Z.eqb_spec a b)
  end.

(** Evaluation of the integer comparisons of the goal that [lia] decides
    from the context, one at a time, reducing the boolean connectives. *)
Ltac zeval_step :=
  match goal with
  | |- context [(?a <? ?b)%Z] =>
      first [ rewrite (proj2 (Z.ltb_lt a b)) by lia | rewrite (proj2 (Z.ltb_ge a b)) by lia ]
  | |- context [(?a <=? ?b)%Z] =>
      first [ rewrite (proj2 (Z.leb_le a b)) by lia | rewrite (proj2 (Z.leb_gt a b)) by lia ]
  end.
Ltac zeval := repeat (zeval_step; cbn [andb orb negb]).

(** A decidable statement on literals ([Forall] over a literal list or a
    finite range of codes), decided by evaluation. *)
Ltac literal_forall := apply (bool_decide_unpack _); vm_compute; reflexivity.

Lemma mod_bound_pos (a m : Z) : 0 < m -> 0 <= a mod m < m.
Proof. apply Z.mod_pos_bound. Qed.

#[export] Hint Resolve mod_bound_pos : app.

Close Scope Z_scope.

(** ** Lists *)

Lemma length_filter_app {A} (P : A -> Prop) `{!forall x, Decision (P x)} (l1 l2 : list A) :
  length (filter P (l1 ++ l2)) = length (filter P l1) + length (filter P l2).
Proof. by rewrite filter_app, length_app. Qed.

#[export] Hint Rewrite @length_filter_app : app_rw.

(** ** Mapping with an index that may throw

    [Array.prototype.map] with a callback [(x, index) => ..]: the callback
    runs on the elements in order, from index [i], and the first exception
    is the result. *)

Fixpoint res_mapi {E A B} (f : nat -> A -> result E B) (i : nat) (l : list A) :
    result E (list B) :=
  match l with
  | [] => Ok []
  | x :: l' => y <- f i x ;; ys <- res_mapi f (S i) l' ;; Ok (y :: ys)
  end.

Section ResMapi.
Context {E A B : Type} (f : nat -> A -> result E B).

Lemma res_mapi_total (g : nat -> A -> B) i l :
  (forall j x, x ∈ l -> f j x = Ok (g j x)) ->
  res_mapi f i l = Ok (zip_with g (seq i (length l)) l).
Proof.
  revert i. induction l as [|x l IH]; intros i Hf; simpl; [done |].
  rewrite Hf by (left; done). simpl.
  rewrite IH by (intros; apply Hf; by right). done.
Qed.

(** What the callback promises of each result, at its index. *)
Lemma res_mapi_proj {C} (h : B -> C) (k : nat -> C) i l ys :
  (forall j x y, f j x = Ok y -> h y = k j) ->
  res_mapi f i l = Ok ys -> map h ys = map k (seq i (length l)).
Proof.
  intros Hf. revert i ys. induction l as [|x l IH]; intros i ys; simpl.
  - by intros [= <-].
  - destruct (f i x) as [y|] eqn:Hy; simpl; [| done].
    destruct (res_mapi f (S i) l) as [ys'|] eqn:Hys; simpl; [| done].
    intros [= <-]. simpl. f_equal; [eauto | by apply IH].
Qed.

Lemma res_mapi_length i l ys : res_mapi f i l = Ok ys -> length ys = length l.
Proof.
  intros H. rewrite <- (length_map (fun _ => tt) ys).
  erewrite (res_mapi_proj (fun _ => tt) (fun _ => tt)); [| done | exact H].
  by rewrite length_map, length_seq.
Qed.

(** What the callback promises of each element and its result. *)
Lemma res_mapi_Forall2 (P : A -> B -> Prop) i l ys :
  (forall j x y, f j x = Ok y -> P x y) ->
  res_mapi f i l = Ok ys -> Forall2 P l ys.
Proof.
  intros Hf. revert i ys. induction l as [|x l IH]; intros i ys; simpl.
  - intros [= <-]. constructor.
  - destruct (f i x) as [y|] eqn:Hy; simpl; [| done].
    destruct (res_mapi f (S i) l) as [ys'|] eqn:Hys; simpl; [| done].
    intros [= <-]. constructor; [eauto | by eapply IH].
Qed.

Lemma res_mapi_exists i l :
  (forall j x, x ∈ l -> exists y, f j x = Ok y) -> exists ys, res_mapi f i l = Ok ys.
Proof.
  revert i. induction l as [|x l IH]; intros i Hf; simpl; [by eexists |].
  destruct (Hf i x) as [y ->]; [by left |]. simpl.
  destruct (IH (S i)) as [ys ->]; [intros j x' ?; apply Hf; by right |].
  by eexists.
Qed.

End ResMapi.

(** Peel the binds of a hypothesis [res_bind r f = Ok b] into one equation
    per step. *)
Ltac res_inv H :=
  repeat (let Hr := fresh "Hr" in apply res_bind_Ok in H as (? & Hr & H); cbv beta in H).
