(* ===== verification/JsValue.v ===== *)
(** * JavaScript values as App.jsx meets them

    Strings are lists of UTF-16 code units ([jsstr]), as JavaScript strings
    are; [str] turns an ASCII literal of the source into one.  [jsval] is the
    set of values [response.json()] can produce, plus [undefined] (the value
    of a missing property).  Objects are lists of own properties; JSON.parse
    keeps one property per key, so [lookup_prop] takes the first binding.
    Exceptions are [js_error] values, thrown through [Prelude.result].

    The operations are those App.jsx applies to fetched data: truthiness (the
    tests [query ? .. : ..], [errorMessage ? .. : ..], [poster_path ? .. : ..]),
    the operator [||], property access [v.p], which throws a TypeError on
    [null] and [undefined], and [data.results || []] (App.jsx 47 and 63). *)

From stdpp Require Import base list options.
From Stdlib Require Import ZArith Ascii Lia.
From Stdlib Require String.
Import String.StringSyntax.
From S2P Require Import Prelude.

Abbreviation jsstr := (list Z).

(** An ASCII literal of the source as a JavaScript string. *)
Definition str (s : String.string) : jsstr :=
  map (fun a => Z.of_N (Ascii.N_of_ascii a)) (String.list_ascii_of_string s).
Arguments str s%_string_scope.

Inductive js_error :=
| JsTypeError                (** reading a property of null or undefined,
                                 calling a non-function, or a network failure *)
| JsSyntaxError              (** [response.json()] on a malformed body *)
| JsURIError                 (** [encodeURIComponent] on an unpaired surrogate *)
| JsError (msg : jsstr).     (** [new Error(msg)] *)

#[export] Instance js_error_eq_dec : EqDecision js_error.
Proof. solve_decision. Defined.

Inductive jsval :=
| JUndefined
| JNull
| JBool (b : bool)
| JNumber (n : Z)
| JString (s : jsstr)
| JArray (xs : list jsval)
| JObject (props : list (jsstr * jsval)).

(** ToBoolean. *)
Definition truthy (v : jsval) : bool :=
  match v with
  | JUndefined | JNull => false
  | JBool b => b
  | JNumber n => negb (n =? 0)%Z
  | JString s => negb (bool_decide (s = []))
  | JArray _ | JObject _ => true
  end.

(** [a || b]: the left operand when it is truthy, else the right one. *)
Definition js_or (a b : jsval) : jsval := if truthy a then a else b.

Fixpoint lookup_prop (k : jsstr) (ps : list (jsstr * jsval)) : option jsval :=
  match ps with
  | [] => None
  | (k', v) :: ps' => if decide (k = k') then Some v else lookup_prop k ps'
  end.

(** [v.k] for the property names App.jsx reads ([results], [id], [title],
    [poster_path], [length]): own properties of objects, [length] of arrays
    and strings, [undefined] for everything else, and a TypeError on
    [null] and [undefined]. *)
Definition get_prop (v : jsval) (k : jsstr) : result js_error jsval :=
  match v with
  | JUndefined | JNull => Err JsTypeError
  | JObject ps => Ok (default JUndefined (lookup_prop k ps))
  | JArray xs =>
      Ok (if decide (k = str "length") then JNumber (Z.of_nat (length xs)) else JUndefined)
  | JString s =>
      Ok (if decide (k = str "length") then JNumber (Z.of_nat (length s)) else JUndefined)
  | JBool _ | JNumber _ => Ok JUndefined
  end.

(** [null] and [undefined]: the values whose property access throws. *)
Definition nullish (v : jsval) : bool :=
  match v with
  | JUndefined | JNull => true
  | _ => false
  end.

(** [data.results || []] (App.jsx 47 and 63). *)
Definition results_or_empty (data : jsval) : result js_error jsval :=
  r <- get_prop data (str "results") ;;
  Ok (js_or r (JArray [])).

(** ** Lemmas *)

Lemma js_or_truthy a b : truthy a = true -> js_or a b = a.
Proof. unfold js_or. by intros ->. Qed.

Lemma js_or_falsy a b : truthy a = false -> js_or a b = b.
Proof. unfold js_or. by intros ->. Qed.

#[export] Hint Rewrite js_or_truthy js_or_falsy using reflexivity : app_rw.

Lemma get_prop_object ps k :
  get_prop (JObject ps) k = Ok (default JUndefined (lookup_prop k ps)).
Proof. reflexivity. Qed.

(** [data.results || []] throws exactly when [data] is [null] or
    [undefined]; otherwise it is the field when that is truthy and the
    empty array in every other case (missing, [null], [false], [0], [""]). *)
Lemma results_or_empty_cases data :
  (data = JNull \/ data = JUndefined) /\ results_or_empty data = Err JsTypeError \/
  exists r, get_prop data (str "results") = Ok r /\
            results_or_empty data = Ok (if truthy r then r else JArray []).
Proof. destruct data; simpl; eauto 10. Qed.

Lemma results_or_empty_missing ps :
  lookup_prop (str "results") ps = None ->
  results_or_empty (JObject ps) = Ok (JArray []).
Proof. intros H. unfold results_or_empty. simpl. by rewrite H. Qed.

Lemma results_or_empty_array ps xs :
  lookup_prop (str "results") ps = Some (JArray xs) ->
  results_or_empty (JObject ps) = Ok (JArray xs).
Proof. intros H. unfold results_or_empty. simpl. by rewrite H. Qed.

Lemma results_or_empty_Ok_truthy data r :
  results_or_empty data = Ok r -> truthy r = true.
Proof.
  unfold results_or_empty. destruct (get_prop data _); simpl; [| done].
  intros [= <-]. unfold js_or. by destruct (truthy a) eqn:?.
Qed.

Lemma get_prop_Err v k e : get_prop v k = Err e <-> nullish v = true /\ e = JsTypeError.
Proof. destruct v; simpl; split; (intros [= <-] || intros [? ->] || intros [? ?]); done. Qed.
