(* ===== verification/UriEncode.v ===== *)
(** * encodeURIComponent

    [fetchMovies] puts the search text into the URL with
    [encodeURIComponent(query)] (App.jsx 43).  This file models that
    built-in as ECMA-262 (sec. 19.2.6.5, the abstract operation Encode with
    an empty extra-unescaped set) defines it on a string of UTF-16 code
    units: a code unit of the unreserved set (letters, digits and
    [-_.!~*'()]) is copied; any other code point (a surrogate pair is one
    code point) is written in UTF-8 and each octet as [%XX] with uppercase
    hexadecimal digits; an unpaired surrogate throws a URIError.

    The decoder ([decodeURIComponent_ref]) is the reference the theorems
    compare with: percent-decoding followed by strict UTF-8 decoding, as a
    server reads the query string.  It is not code of the repository. *)

From stdpp Require Import base list options.
From Stdlib Require Import ZArith Lia.
From Stdlib Require String.
Import String.StringSyntax.
From S2P Require Import Prelude JsValue.

Local Open Scope Z_scope.

(** ** The encoder *)

Definition is_alpha (c : Z) : bool := ((65 <=? c) && (c <=? 90)) || ((97 <=? c) && (c <=? 122)).
Definition is_digit (c : Z) : bool := (48 <=? c) && (c <=? 57).
Definition uri_mark (c : Z) : bool := existsb (Z.eqb c) (str "-_.!~*'()").
Definition uri_unreserved (c : Z) : bool := is_alpha c || is_digit c || uri_mark c.

Definition is_high_surrogate (c : Z) : bool := (0xD800 <=? c) && (c <=? 0xDBFF).
Definition is_low_surrogate (c : Z) : bool := (0xDC00 <=? c) && (c <=? 0xDFFF).

(** UTF16SurrogatePairToCodePoint. *)
Definition surrogate_pair_cp (hi lo : Z) : Z := (hi - 0xD800) * 0x400 + (lo - 0xDC00) + 0x10000.

(** The UTF-8 transformation of one code point. *)
Definition utf8_octets (cp : Z) : list Z :=
  if cp <? 0x80 then [cp]
  else if cp <? 0x800 then
    [Z.lor 0xC0 (Z.shiftr cp 6); Z.lor 0x80 (Z.land cp 0x3F)]
  else if cp <? 0x10000 then
    [Z.lor 0xE0 (Z.shiftr cp 12); Z.lor 0x80 (Z.land (Z.shiftr cp 6) 0x3F);
     Z.lor 0x80 (Z.land cp 0x3F)]
  else
    [Z.lor 0xF0 (Z.shiftr cp 18); Z.lor 0x80 (Z.land (Z.shiftr cp 12) 0x3F);
     Z.lor 0x80 (Z.land (Z.shiftr cp 6) 0x3F); Z.lor 0x80 (Z.land cp 0x3F)].

(** An uppercase hexadecimal digit. *)
Definition hex_digit (d : Z) : Z := if d <? 10 then 48 + d else 55 + d.

(** ["%"] and the octet as two uppercase hexadecimal digits. *)
Definition percent_octet (b : Z) : jsstr :=
  [37; hex_digit (Z.shiftr b 4); hex_digit (Z.land b 15)].

Definition percent_encode_cp (cp : Z) : jsstr := concat (map percent_octet (utf8_octets cp)).

Fixpoint encodeURIComponent (s : jsstr) : result js_error jsstr :=
  match s with
  | [] => Ok []
  | c :: rest =>
      if uri_unreserved c then res_map (cons c) (encodeURIComponent rest)
      else if is_low_surrogate c then Err JsURIError
      else if is_high_surrogate c then
        match rest with
        | d :: rest' =>
            if is_low_surrogate d
            then res_map (app (percent_encode_cp (surrogate_pair_cp c d)))
                   (encodeURIComponent rest')
            else Err JsURIError
        | [] => Err JsURIError
        end
      else res_map (app (percent_encode_cp c)) (encodeURIComponent rest)
  end.

(** ** The reference decoder *)

Definition hex_value (c : Z) : option Z :=
  if is_digit c then Some (c - 48)
  else if (65 <=? c) && (c <=? 70) then Some (c - 55)
  else if (97 <=? c) && (c <=? 102) then Some (c - 87)
  else None.

Inductive uri_token := TChar (c : Z) | TOctet (b : Z).

Fixpoint unpercent (s : jsstr) : option (list uri_token) :=
  match s with
  | [] => Some []
  | c :: rest =>
      if c =? 37 then
        match rest with
        | h :: l :: rest' =>
            hv ← hex_value h; lv ← hex_value l;
            ts ← unpercent rest'; Some (TOctet (16 * hv + lv) :: ts)
        | _ => None
        end
      else ts ← unpercent rest; Some (TChar c :: ts)
  end.

Definition is_cont (b : Z) : bool := (128 <=? b) && (b <? 192).

(** A code point as UTF-16 code units. *)
Definition utf16_units (cp : Z) : jsstr :=
  if cp <? 0x10000 then [cp]
  else [0xD800 + (cp - 0x10000) / 0x400; 0xDC00 + (cp - 0x10000) mod 0x400].

Definition is_surrogate (cp : Z) : bool := (0xD800 <=? cp) && (cp <=? 0xDFFF).

(** Strict UTF-8: no overlong form, no surrogate, nothing above U+10FFFF. *)
Fixpoint utf8_decode (ts : list uri_token) : option jsstr :=
  match ts with
  | [] => Some []
  | TChar c :: rest => cons c <$> utf8_decode rest
  | TOctet b1 :: rest =>
      if b1 <? 0x80 then cons b1 <$> utf8_decode rest
      else if (0xC0 <=? b1) && (b1 <? 0xE0) then
        match rest with
        | TOctet b2 :: rest' =>
            let cp := (b1 mod 32) * 64 + b2 mod 64 in
            if is_cont b2 && (0x80 <=? cp)
            then app (utf16_units cp) <$> utf8_decode rest' else None
        | _ => None
        end
      else if (0xE0 <=? b1) && (b1 <? 0xF0) then
        match rest with
        | TOctet b2 :: TOctet b3 :: rest' =>
            let cp := (b1 mod 16) * 4096 + (b2 mod 64) * 64 + b3 mod 64 in
            if is_cont b2 && is_cont b3 && (0x800 <=? cp) && negb (is_surrogate cp)
            then app (utf16_units cp) <$> utf8_decode rest' else None
        | _ => None
        end
      else if (0xF0 <=? b1) && (b1 <? 0xF8) then
        match rest with
        | TOctet b2 :: TOctet b3 :: TOctet b4 :: rest' =>
            let cp := (b1 mod 8) * 262144 + (b2 mod 64) * 4096 + (b3 mod 64) * 64 + b4 mod 64 in
            if is_cont b2 && is_cont b3 && is_cont b4 && (0x10000 <=? cp) && (cp <=? 0x10FFFF)
            then app (utf16_units cp) <$> utf8_decode rest' else None
        | _ => None
        end
      else None
  end.

Definition decodeURIComponent_ref (s : jsstr) : option jsstr :=
  unpercent s ≫= utf8_decode.

(** ** Well-formedness *)

(** A JavaScript string: every element is a 16-bit code unit. *)
Definition code_units_ok (s : jsstr) : Prop := Forall (fun c => 0 <= c <= 0xFFFF) s.

(** Well-formed UTF-16: every surrogate is the half of a high-low pair. *)
Fixpoint wf_utf16 (s : jsstr) : bool :=
  match s with
  | [] => true
  | c :: rest =>
      if is_low_surrogate c then false
      else if is_high_surrogate c then
        match rest with
        | d :: rest' => is_low_surrogate d && wf_utf16 rest'
        | [] => false
        end
      else wf_utf16 rest
  end.

(** A Unicode scalar value. *)
Definition valid_cp (cp : Z) : Prop := 0 <= cp <= 0x10FFFF /\ is_surrogate cp = false.

(** What the encoder may write: an unreserved code unit or ["%"] (the
    hexadecimal digits are unreserved letters and digits). *)
Definition uri_safe (c : Z) : bool := uri_unreserved c || (c =? 37).

(** ** Examples *)

Example encode_space : encodeURIComponent (str "a b&c") = Ok (str "a%20b%26c").
Proof. vm_compute. reflexivity. Qed.

(** U+00E9 and U+1F600 (the pair D83D DE00). *)
Example encode_non_ascii :
  encodeURIComponent [0xE9; 0xD83D; 0xDE00] = Ok (str "%C3%A9%F0%9F%98%80").
Proof. vm_compute. reflexivity. Qed.

Example encode_lone_surrogate : encodeURIComponent [97; 0xDC00] = Err JsURIError.
Proof. vm_compute. reflexivity. Qed.

Example decode_non_ascii :
  decodeURIComponent_ref (str "%C3%A9%F0%9F%98%80") = Some [0xE9; 0xD83D; 0xDE00].
Proof. vm_compute. reflexivity. Qed.

(** ** The octets as arithmetic *)

Lemma shiftr_div cp k : 0 <= k -> Z.shiftr cp k = cp / 2 ^ k.
Proof. apply Z.shiftr_div_pow2. Qed.

Lemma cont_octet x : Z.lor 0x80 (Z.land x 0x3F) = 128 + x mod 64.
Proof.
  change 0x3F with (2 ^ 6 - 1). rewrite land_low_mask by lia.
  change 0x80 with (2 * 2 ^ 6). rewrite lor_high_low; [reflexivity | lia |].
  apply Z.mod_pos_bound. reflexivity.
Qed.

(** A leading octet: the marker bits above [k] and the high bits of the
    code point below. *)
Lemma lead_octet (a k cp : Z) (j : Z) :
  0 <= k -> 0 <= j -> 0 <= cp < 2 ^ (k + j) ->
  Z.lor (a * 2 ^ k) (Z.shiftr cp j) = a * 2 ^ k + cp / 2 ^ j.
Proof.
  intros Hk Hj Hcp. rewrite shiftr_div by done. apply lor_high_low; [done |].
  split; [apply Z.div_pos; lia |]. apply Z.div_lt_upper_bound; [lia |].
  rewrite <- Z.pow_add_r by lia. replace (j + k) with (k + j) by lia. lia.
Qed.

Lemma utf8_octets_1 cp : cp < 0x80 -> utf8_octets cp = [cp].
Proof. intros H. unfold utf8_octets. by rewrite (proj2 (Z.ltb_lt _ _) H). Qed.

Lemma utf8_octets_2 cp :
  0x80 <= cp < 0x800 -> utf8_octets cp = [192 + cp / 64; 128 + cp mod 64].
Proof.
  intros H. unfold utf8_octets. zcase; try lia.
  rewrite cont_octet. change 0xC0 with (6 * 2 ^ 5).
  rewrite lead_octet; [reflexivity | lia | lia | simpl; lia].
Qed.

Lemma utf8_octets_3 cp :
  0x800 <= cp < 0x10000 ->
  utf8_octets cp = [224 + cp / 4096; 128 + (cp / 64) mod 64; 128 + cp mod 64].
Proof.
  intros H. unfold utf8_octets. zcase; try lia.
  rewrite !cont_octet, (shiftr_div cp 6) by lia. change 0xE0 with (14 * 2 ^ 4).
  rewrite lead_octet; [reflexivity | lia | lia | simpl; lia].
Qed.

Lemma utf8_octets_4 cp :
  0x10000 <= cp <= 0x10FFFF ->
  utf8_octets cp =
  [240 + cp / 262144; 128 + (cp / 4096) mod 64; 128 + (cp / 64) mod 64; 128 + cp mod 64].
Proof.
  intros H. unfold utf8_octets. zcase; try lia.
  rewrite !cont_octet, (shiftr_div cp 6), (shiftr_div cp 12) by lia.
  change 0xF0 with (30 * 2 ^ 3).
  rewrite lead_octet; [reflexivity | lia | lia | simpl; lia].
Qed.

(** ** Decoding what the encoder writes *)

Lemma hex_value_digit d : 0 <= d < 16 -> hex_value (hex_digit d) = Some d.
Proof. intros H. unfold hex_value, hex_digit, is_digit. zcase; simpl; try lia; f_equal; lia. Qed.

Lemma unpercent_octet b s :
  0 <= b < 256 -> unpercent (percent_octet b ++ s) = cons (TOctet b) <$> unpercent s.
Proof.
  intros Hb. unfold percent_octet. simpl.
  rewrite shiftr_div by lia. change 15 with (2 ^ 4 - 1). rewrite land_low_mask by lia.
  assert (0 <= b / 2 ^ 4 < 16) by (simpl; split; [apply Z.div_pos | apply Z.div_lt_upper_bound]; lia).
  assert (0 <= b mod 2 ^ 4 < 16) by (apply Z.mod_pos_bound; reflexivity).
  rewrite !hex_value_digit by done. simpl.
  replace (16 * (b / 2 ^ 4) + b mod 2 ^ 4) with b by (simpl; Z.div_mod_to_equations; lia).
  by destruct (unpercent s).
Qed.

Lemma unpercent_octets bs s :
  Forall (fun b => 0 <= b < 256) bs ->
  unpercent (concat (map percent_octet bs) ++ s) = app (map TOctet bs) <$> unpercent s.
Proof.
  induction 1 as [|b bs Hb _ IH]; [simpl; by destruct (unpercent s) |].
  cbn [map concat]. rewrite <- app_assoc, unpercent_octet, IH by done.
  by destruct (unpercent s).
Qed.

Lemma utf8_octets_bytes cp : valid_cp cp -> Forall (fun b => 0 <= b < 256) (utf8_octets cp).
Proof.
  intros [H _].
  destruct (Z.lt_ge_cases cp 0x80); [rewrite utf8_octets_1 by lia; repeat constructor; lia |].
  destruct (Z.lt_ge_cases cp 0x800); [rewrite utf8_octets_2 by lia |].
  2: destruct (Z.lt_ge_cases cp 0x10000); [rewrite utf8_octets_3 by lia | rewrite utf8_octets_4 by lia].
  all: repeat constructor; Z.div_mod_to_equations; lia.
Qed.

Lemma utf8_decode_2 cp ts :
  0x80 <= cp < 0x800 ->
  utf8_decode (map TOctet (utf8_octets cp) ++ ts) = app [cp] <$> utf8_decode ts.
Proof.
  intros H. rewrite utf8_octets_2 by done.
  assert (Hcp : (192 + cp / 64) mod 32 * 64 + (128 + cp mod 64) mod 64 = cp)
    by (Z.div_mod_to_equations; lia).
  assert (2 <= cp / 64 < 32) by (split; [apply Z.div_le_lower_bound | apply Z.div_lt_upper_bound]; lia).
  assert (0 <= cp mod 64 < 64) by (apply Z.mod_pos_bound; lia).
  cbn [map app utf8_decode]. rewrite Hcp. unfold is_cont, utf16_units.
  generalize dependent (cp / 64); generalize dependent (cp mod 64); intros.
  zeval. reflexivity.
Qed.

Lemma utf8_decode_3 cp ts :
  0x800 <= cp < 0x10000 -> is_surrogate cp = false ->
  utf8_decode (map TOctet (utf8_octets cp) ++ ts) = app [cp] <$> utf8_decode ts.
Proof.
  intros H Hs. rewrite utf8_octets_3 by done.
  assert (Hcp : (224 + cp / 4096) mod 16 * 4096 + (128 + (cp / 64) mod 64) mod 64 * 64 +
                (128 + cp mod 64) mod 64 = cp) by (Z.div_mod_to_equations; lia).
  assert (0 <= cp / 4096 < 16) by (split; [apply Z.div_pos | apply Z.div_lt_upper_bound]; lia).
  assert (0 <= (cp / 64) mod 64 < 64) by (apply Z.mod_pos_bound; lia).
  assert (0 <= cp mod 64 < 64) by (apply Z.mod_pos_bound; lia).
  cbn [map app utf8_decode]. rewrite Hcp, Hs. unfold is_cont, utf16_units.
  generalize dependent (cp / 4096); generalize dependent ((cp / 64) mod 64);
    generalize dependent (cp mod 64); intros.
  zeval. reflexivity.
Qed.

Lemma utf8_decode_4 cp ts :
  0x10000 <= cp <= 0x10FFFF ->
  utf8_decode (map TOctet (utf8_octets cp) ++ ts) = app (utf16_units cp) <$> utf8_decode ts.
Proof.
  intros H. rewrite utf8_octets_4 by done.
  assert (Hcp : (240 + cp / 262144) mod 8 * 262144 + (128 + (cp / 4096) mod 64) mod 64 * 4096 +
                (128 + (cp / 64) mod 64) mod 64 * 64 + (128 + cp mod 64) mod 64 = cp)
    by (Z.div_mod_to_equations; lia).
  assert (0 <= cp / 262144 < 5) by (split; [apply Z.div_pos | apply Z.div_lt_upper_bound]; lia).
  assert (0 <= (cp / 4096) mod 64 < 64) by (apply Z.mod_pos_bound; lia).
  assert (0 <= (cp / 64) mod 64 < 64) by (apply Z.mod_pos_bound; lia).
  assert (0 <= cp mod 64 < 64) by (apply Z.mod_pos_bound; lia).
  cbn [map app utf8_decode]. rewrite Hcp. unfold is_cont.
  generalize dependent (cp / 262144); generalize dependent ((cp / 4096) mod 64);
    generalize dependent ((cp / 64) mod 64); generalize dependent (cp mod 64); intros.
  zeval. reflexivity.
Qed.

Lemma utf16_units_pair hi lo :
  is_high_surrogate hi = true -> is_low_surrogate lo = true ->
  0x10000 <= surrogate_pair_cp hi lo <= 0x10FFFF /\ utf16_units (surrogate_pair_cp hi lo) = [hi; lo].
Proof.
  unfold is_high_surrogate, is_low_surrogate, surrogate_pair_cp, utf16_units.
  intros Hh%andb_true_iff Hl%andb_true_iff. destruct Hh as [Hh1%Z.leb_le Hh2%Z.leb_le].
  destruct Hl as [Hl1%Z.leb_le Hl2%Z.leb_le]. split; [lia |].
  zcase; [lia |]. f_equal; [| f_equal]; Z.div_mod_to_equations; lia.
Qed.

Lemma utf8_decode_1 cp ts :
  0 <= cp < 0x80 -> utf8_decode (map TOctet (utf8_octets cp) ++ ts) = app [cp] <$> utf8_decode ts.
Proof. intros H. rewrite utf8_octets_1 by lia. cbn [map app utf8_decode]. zeval. reflexivity. Qed.

(** The strict decoder reads back the UTF-16 units of any scalar value
    from its UTF-8 octets. *)
Lemma utf8_decode_cp cp ts :
  valid_cp cp ->
  utf8_decode (map TOctet (utf8_octets cp) ++ ts) = app (utf16_units cp) <$> utf8_decode ts.
Proof.
  intros [H Hs]. destruct (Z.lt_ge_cases cp 0x10000) as [Hb|]; [| apply utf8_decode_4; lia].
  unfold utf16_units. rewrite (proj2 (Z.ltb_lt _ _) Hb).
  destruct (Z.lt_ge_cases cp 0x80); [apply utf8_decode_1; lia |].
  destruct (Z.lt_ge_cases cp 0x800); [apply utf8_decode_2; lia | apply utf8_decode_3; [lia | done]].
Qed.

Lemma unpercent_unreserved c s :
  uri_unreserved c = true -> unpercent (c :: s) = cons (TChar c) <$> unpercent s.
Proof.
  intros Hu. simpl. destruct (Z.eqb_spec c 37) as [->|]; [discriminate | done].
Qed.

Lemma decode_ref_chunk chunk toks units e' rest :
  (forall x, unpercent (chunk ++ x) = app toks <$> unpercent x) ->
  (forall ts, utf8_decode (toks ++ ts) = app units <$> utf8_decode ts) ->
  decodeURIComponent_ref e' = Some rest ->
  decodeURIComponent_ref (chunk ++ e') = Some (units ++ rest).
Proof.
  unfold decodeURIComponent_ref. intros Hu Hd He. rewrite Hu.
  destruct (unpercent e') as [ts|]; simpl in *; [| discriminate].
  by rewrite Hd, He.
Qed.

Lemma jsstr_strong_ind (P : jsstr -> Prop) :
  (forall s, (forall s', (length s' < length s)%nat -> P s') -> P s) -> forall s, P s.
Proof.
  intros H s. remember (length s) as n eqn:E. revert s E.
  induction n as [n IH] using lt_wf_ind. intros s ->. apply H. intros s' Hl. eapply IH; eauto.
Qed.

(** The code point a non-surrogate BMP unit or a surrogate pair stands for. *)
Lemma bmp_valid c :
  0 <= c <= 0xFFFF -> is_low_surrogate c = false -> is_high_surrogate c = false -> valid_cp c.
Proof.
  unfold valid_cp, is_surrogate, is_low_surrogate, is_high_surrogate. intros H Hl Hh.
  split; [lia |]. revert Hl Hh. zcase; simpl; intros; try done; lia.
Qed.

Lemma pair_valid hi lo :
  is_high_surrogate hi = true -> is_low_surrogate lo = true -> valid_cp (surrogate_pair_cp hi lo).
Proof.
  intros Hh Hl. destruct (utf16_units_pair _ _ Hh Hl) as [H _].
  split; [lia |]. unfold is_surrogate. zeval. reflexivity.
Qed.

Lemma bmp_units c : 0 <= c <= 0xFFFF -> utf16_units c = [c].
Proof. intros H. unfold utf16_units. by zeval. Qed.

(** Round trip: the reference decoder reads back every string the encoder
    accepts. *)
Lemma encode_decode s e :
  code_units_ok s -> encodeURIComponent s = Ok e -> decodeURIComponent_ref e = Some s.
Proof.
  revert e. induction s as [s IH] using jsstr_strong_ind. intros e Hok Henc.
  destruct s as [|c rest]; simpl in Henc; [by injection Henc as <- |].
  apply Forall_cons in Hok as [Hc Hok].
  destruct (uri_unreserved c) eqn:Hu.
  - destruct (encodeURIComponent rest) as [e'|] eqn:Er; simpl in Henc; simplify_eq.
    apply (decode_ref_chunk [c] [TChar c] [c]); [| done | apply IH; simpl; auto].
    intros x. by apply unpercent_unreserved.
  - destruct (is_low_surrogate c) eqn:Hl; [discriminate |].
    destruct (is_high_surrogate c) eqn:Hh.
    + destruct rest as [|d rest']; [discriminate |].
      destruct (is_low_surrogate d) eqn:Hl2; [| discriminate].
      destruct (encodeURIComponent rest') as [e'|] eqn:Er; simpl in Henc; simplify_eq.
      apply Forall_cons in Hok as [_ Hok].
      destruct (utf16_units_pair _ _ Hh Hl2) as [_ Hunits].
      replace (c :: d :: rest') with (utf16_units (surrogate_pair_cp c d) ++ rest')
        by (by rewrite Hunits).
      apply decode_ref_chunk with (map TOctet (utf8_octets (surrogate_pair_cp c d))).
      * intros x. apply unpercent_octets, utf8_octets_bytes, pair_valid; done.
      * intros ts. apply utf8_decode_cp, pair_valid; done.
      * apply IH; simpl; auto.
    + destruct (encodeURIComponent rest) as [e'|] eqn:Er; simpl in Henc; simplify_eq.
      pose proof (bmp_valid c Hc Hl Hh) as Hv.
      replace (c :: rest) with (utf16_units c ++ rest) by (by rewrite bmp_units).
      apply decode_ref_chunk with (map TOctet (utf8_octets c)).
      * intros x. by apply unpercent_octets, utf8_octets_bytes.
      * intros ts. by apply utf8_decode_cp.
      * apply IH; simpl; auto.
Qed.

(** ** What the encoder writes *)

Lemma unreserved_ascii c : uri_unreserved c = true -> 33 <= c <= 126.
Proof.
  unfold uri_unreserved, is_alpha, is_digit, uri_mark. simpl.
  rewrite !orb_true_iff, !andb_true_iff, !Z.eqb_eq, !Z.leb_le. lia.
Qed.

Lemma unreserved_not_surrogate c :
  uri_unreserved c = true -> is_low_surrogate c = false /\ is_high_surrogate c = false.
Proof.
  intros H%unreserved_ascii. unfold is_low_surrogate, is_high_surrogate. by zeval.
Qed.

Lemma hex_digit_safe d : 0 <= d < 16 -> uri_safe (hex_digit d) = true.
Proof.
  intros H. unfold uri_safe, uri_unreserved, is_alpha, is_digit, hex_digit.
  destruct (Z.ltb_spec d 10); zeval; reflexivity.
Qed.

Lemma percent_octets_safe bs :
  Forall (fun b => 0 <= b < 256) bs -> Forall (fun c => uri_safe c = true) (concat (map percent_octet bs)).
Proof.
  induction 1 as [|b bs Hb _ IH]; [constructor |]. cbn [map concat].
  apply Forall_app. split; [| done]. unfold percent_octet.
  rewrite shiftr_div by lia. change 15 with (2 ^ 4 - 1). rewrite land_low_mask by lia.
  repeat constructor; apply hex_digit_safe;
    [simpl; split; [apply Z.div_pos | apply Z.div_lt_upper_bound]; lia | apply Z.mod_pos_bound; reflexivity].
Qed.

(** Every code unit the encoder writes is unreserved or ["%"]. *)
Lemma encode_alphabet s e :
  code_units_ok s -> encodeURIComponent s = Ok e -> Forall (fun c => uri_safe c = true) e.
Proof.
  revert e. induction s as [s IH] using jsstr_strong_ind. intros e Hok Henc.
  destruct s as [|c rest]; simpl in Henc; [simplify_eq; constructor |].
  apply Forall_cons in Hok as [Hc Hok].
  destruct (uri_unreserved c) eqn:Hu.
  - apply res_map_Ok in Henc as (e' & Er & ->). constructor.
    + unfold uri_safe. by rewrite Hu.
    + apply (IH rest); simpl; auto.
  - destruct (is_low_surrogate c) eqn:Hl; [discriminate |].
    destruct (is_high_surrogate c) eqn:Hh.
    + destruct rest as [|d rest']; [discriminate |].
      destruct (is_low_surrogate d) eqn:Hl2; [| discriminate].
      apply res_map_Ok in Henc as (e' & Er & ->). apply Forall_cons in Hok as [_ Hok].
      apply Forall_app. split.
      * apply percent_octets_safe, utf8_octets_bytes, pair_valid; done.
      * apply (IH rest'); simpl; auto.
    + apply res_map_Ok in Henc as (e' & Er & ->). apply Forall_app. split.
      * apply percent_octets_safe, utf8_octets_bytes, bmp_valid; done.
      * apply (IH rest); simpl; auto.
Qed.

(** ** Errors *)

(** C18. [encodeURIComponent] throws exactly on strings that are not
    well-formed UTF-16 (an unpaired surrogate), and the only exception it
    throws is a URIError. *)
Theorem encode_error_iff s e :
  encodeURIComponent s = Err e <-> wf_utf16 s = false /\ e = JsURIError.
Proof.
  revert e. induction s as [s IH] using jsstr_strong_ind. intros e.
  destruct s as [|c rest]; simpl; [split; [discriminate | by intros []] |].
  destruct (uri_unreserved c) eqn:Hu.
  - destruct (unreserved_not_surrogate c Hu) as [-> ->].
    rewrite res_map_Err. apply IH. simpl. lia.
  - destruct (is_low_surrogate c); [split; [intros [= <-] | intros [_ ->]]; done |].
    destruct (is_high_surrogate c).
    + destruct rest as [|d rest']; [split; [intros [= <-] | intros [_ ->]]; done |].
      destruct (is_low_surrogate d); simpl; [| split; [intros [= <-] | intros [_ ->]]; done].
      rewrite res_map_Err. apply IH. simpl. lia.
    + rewrite res_map_Err. apply IH. simpl. lia.
Qed.
