(* ===== verification/UriReference.v ===== *)
(** * UriReference: encodeURIComponent against the text of ECMA-262

    ECMA-262 (sec. 19.2.6.5, Encode with an empty extra-unescaped set)
    states [encodeURIComponent(string)] as a loop over the code units: a
    code unit of the always-unescaped set (the ASCII word characters and
    [-.!~*'()]) is copied; otherwise [CodePointAt(string, k)] reads one
    code point, an unpaired surrogate throws a URIError, and the octets of
    the UTF-8 transformation of the code point are written as ["%"] and two
    uppercase hexadecimal digits; [k] advances by the code point's
    [CodeUnitCount].

    This file writes that text down with its own definitions, independent
    of [UriEncode]: the unescaped set as the literal list of the
    specification, [CodePointAt] with its record, the UTF-8 transformation
    by the division table of the Unicode standard (Table 3-6), the digits
    as the string ["0123456789ABCDEF"].  [Encode] runs the loop with fuel,
    the length of the string: every round consumes at least one code unit.
    The theorem is that [UriEncode.encodeURIComponent] computes exactly
    what [Encode] computes, on every JavaScript string, errors included,
    and that the fuel is always enough. *)

From stdpp Require Import base list options.
From Stdlib Require Import ZArith Lia.
From Stdlib Require String.
Import String.StringSyntax.
From S2P Require Import Prelude JsValue UriEncode.

Local Open Scope Z_scope.

(** ** The text of the specification *)

(** The ASCII word characters and ["-.!~*'()"]. *)
Definition ALWAYS_UNESCAPED : jsstr :=
  str "ABCDEFGHIJKLMNOPQRSTUVWXYZabcdefghijklmnopqrstuvwxyz0123456789_-.!~*'()".

Definition unescaped (c : Z) : bool := existsb (Z.eqb c) ALWAYS_UNESCAPED.

Definition is_leading_surrogate (c : Z) : bool := (0xD800 <=? c) && (c <=? 0xDBFF).
Definition is_trailing_surrogate (c : Z) : bool := (0xDC00 <=? c) && (c <=? 0xDFFF).

Definition UTF16SurrogatePairToCodePoint (lead trail : Z) : Z :=
  (lead - 0xD800) * 0x400 + (trail - 0xDC00) + 0x10000.

Record code_point_record := mk_cp {
  cp_CodePoint : Z;
  cp_CodeUnitCount : nat;
  cp_IsUnpairedSurrogate : bool
}.

(** [CodePointAt(string, k)], on [first :: rest], the string from [k] on. *)
Definition CodePointAt (first : Z) (rest : jsstr) : code_point_record :=
  if negb (is_leading_surrogate first) && negb (is_trailing_surrogate first)
  then mk_cp first 1 false
  else if is_trailing_surrogate first then mk_cp first 1 true
  else match rest with
       | [] => mk_cp first 1 true
       | second :: _ =>
           if negb (is_trailing_surrogate second) then mk_cp first 1 true
           else mk_cp (UTF16SurrogatePairToCodePoint first second) 2 false
       end.

(** The UTF-8 transformation (Unicode, Table 3-6), with division and
    remainder. *)
Definition utf8_transform (cp : Z) : list Z :=
  if cp <=? 0x7F then [cp]
  else if cp <=? 0x7FF then [0xC0 + cp / 64; 0x80 + cp mod 64]
  else if cp <=? 0xFFFF then [0xE0 + cp / 4096; 0x80 + (cp / 64) mod 64; 0x80 + cp mod 64]
  else [0xF0 + cp / 262144; 0x80 + (cp / 4096) mod 64; 0x80 + (cp / 64) mod 64;
        0x80 + cp mod 64].

Definition HEX_DIGITS : jsstr := str "0123456789ABCDEF".

(** ["%"] and [StringPad(hex, 2, "0", start)] of the octet in uppercase
    hexadecimal. *)
Definition percent_hex (octet : Z) : jsstr :=
  [37; nth (Z.to_nat (octet / 16)) HEX_DIGITS 0; nth (Z.to_nat (octet mod 16)) HEX_DIGITS 0].

(** The loop of Encode; [None] when the fuel runs out. *)
Fixpoint encode_loop (fuel : nat) (s : jsstr) : option (result js_error jsstr) :=
  match s with
  | [] => Some (Ok [])
  | C :: rest =>
      match fuel with
      | O => None
      | S fuel' =>
          if unescaped C then res_map (cons C) <$> encode_loop fuel' rest
          else
            let cp := CodePointAt C rest in
            if cp_IsUnpairedSurrogate cp then Some (Err JsURIError)
            else
              let octets := utf8_transform (cp_CodePoint cp) in
              res_map (app (concat (map percent_hex octets)))
                <$> encode_loop fuel' (drop (cp_CodeUnitCount cp) (C :: rest))
      end
  end.

Definition Encode (s : jsstr) : option (result js_error jsstr) := encode_loop (length s) s.

(** ** The specification's pieces against the encoder's *)

Lemma unescaped_ascii c : unescaped c = true -> 33 <= c <= 126.
Proof.
  unfold unescaped. intros (x & Hx & ->%Z.eqb_eq)%existsb_exists.
  assert (Forall (fun x => 33 <= x <= 126) ALWAYS_UNESCAPED) as H by literal_forall.
  rewrite Forall_forall in H. by apply H, list_elem_of_In.
Qed.

(** The two unreserved sets agree: outside the printable ASCII range both
    are empty, and inside it they are compared code by code. *)
Lemma unescaped_unreserved c : unescaped c = uri_unreserved c.
Proof.
  destruct (decide (33 <= c <= 126)) as [Hc|Hc].
  - assert (Forall (fun c => unescaped c = uri_unreserved c) (seqZ 33 94)) as H by literal_forall.
    rewrite Forall_forall in H. apply H, elem_of_seqZ. lia.
  - destruct (unescaped c) eqn:E1; [apply unescaped_ascii in E1; lia |].
    destruct (uri_unreserved c) eqn:E2; [apply unreserved_ascii in E2; lia | done].
Qed.

Lemma utf8_transform_octets cp : 0 <= cp <= 0x10FFFF -> utf8_transform cp = utf8_octets cp.
Proof.
  intros H. unfold utf8_transform.
  destruct (Z.leb_spec cp 0x7F); [by rewrite utf8_octets_1 by lia |].
  destruct (Z.leb_spec cp 0x7FF); [by rewrite utf8_octets_2 by lia |].
  destruct (Z.leb_spec cp 0xFFFF); [by rewrite utf8_octets_3 by lia | by rewrite utf8_octets_4 by lia].
Qed.

Lemma percent_hex_octet b : 0 <= b < 256 -> percent_hex b = percent_octet b.
Proof.
  intros Hb. unfold percent_hex, percent_octet.
  rewrite shiftr_div by lia. change 15 with (2 ^ 4 - 1). rewrite land_low_mask by lia.
  assert (Forall (fun d => nth (Z.to_nat d) HEX_DIGITS 0 = hex_digit d) (seqZ 0 16)) as H
    by literal_forall.
  rewrite Forall_forall in H. change (2 ^ 4) with 16.
  rewrite !H; [done | apply elem_of_seqZ; Z.div_mod_to_equations; lia ..].
Qed.

Lemma percent_hex_encode cp :
  valid_cp cp -> concat (map percent_hex (utf8_transform cp)) = percent_encode_cp cp.
Proof.
  intros Hcp. unfold percent_encode_cp.
  rewrite utf8_transform_octets by (destruct Hcp; lia).
  induction (utf8_octets_bytes cp Hcp) as [|b bs Hb _ IH]; [done |].
  cbn [map concat]. by rewrite percent_hex_octet, IH.
Qed.

Lemma surrogates_same c :
  is_leading_surrogate c = is_high_surrogate c /\ is_trailing_surrogate c = is_low_surrogate c.
Proof. done. Qed.

(** [CodePointAt] on a unit that is no surrogate and on a pair. *)
Lemma CodePointAt_bmp c rest :
  is_high_surrogate c = false -> is_low_surrogate c = false -> CodePointAt c rest = mk_cp c 1 false.
Proof. intros Hh Hl. unfold CodePointAt. destruct (surrogates_same c) as [-> ->]. by rewrite Hh, Hl. Qed.

Lemma CodePointAt_pair c d rest :
  is_high_surrogate c = true -> is_low_surrogate d = true ->
  CodePointAt c (d :: rest) = mk_cp (surrogate_pair_cp c d) 2 false.
Proof.
  intros Hh Hl. unfold CodePointAt. destruct (surrogates_same c) as [-> ->], (surrogates_same d) as [_ ->].
  rewrite Hh, Hl. replace (is_low_surrogate c) with false; [done |].
  revert Hh. unfold is_high_surrogate, is_low_surrogate. zcase; simpl; intros; try done; lia.
Qed.

(** Fuel is enough: with as much fuel as code units, the loop returns what
    [encodeURIComponent] returns. *)
Lemma encode_loop_enough n s :
  code_units_ok s -> (length s <= n)%nat -> encode_loop n s = Some (encodeURIComponent s).
Proof.
  revert s. induction n as [|n IH]; intros s Hok Hlen.
  { destruct s; [done | simpl in Hlen; lia]. }
  destruct s as [|c rest]; [done |]. apply Forall_cons in Hok as [Hc Hok].
  simpl in Hlen. cbn [encode_loop encodeURIComponent].
  rewrite unescaped_unreserved. destruct (uri_unreserved c); [by rewrite IH by (done || lia) |].
  destruct (is_low_surrogate c) eqn:Hl.
  { unfold CodePointAt. destruct (surrogates_same c) as [-> ->]. rewrite Hl.
    by rewrite andb_false_r. }
  destruct (is_high_surrogate c) eqn:Hh.
  - destruct rest as [|d rest'].
    { unfold CodePointAt. destruct (surrogates_same c) as [-> ->]. by rewrite Hl, Hh. }
    destruct (is_low_surrogate d) eqn:Hd.
    + rewrite CodePointAt_pair by done. cbn [cp_IsUnpairedSurrogate cp_CodePoint cp_CodeUnitCount drop].
      apply Forall_cons in Hok as [_ Hok].
      rewrite drop_0, percent_hex_encode by (by apply pair_valid).
      rewrite IH by first [done | simpl in *; lia].
      done.
    + unfold CodePointAt. destruct (surrogates_same c) as [-> ->], (surrogates_same d) as [_ ->].
      by rewrite Hl, Hh, Hd.
  - rewrite CodePointAt_bmp by done. cbn [cp_IsUnpairedSurrogate cp_CodePoint cp_CodeUnitCount drop].
    rewrite drop_0, percent_hex_encode by (by apply bmp_valid). by rewrite IH by (done || lia).
Qed.

(** C27. Equivalence with the specification: on every JavaScript string
    (code units of 16 bits), errors included, the single pass of
    [encodeURIComponent] computes what ECMA-262's Encode computes, stated
    with its own unescaped set, [CodePointAt], UTF-8 table and hexadecimal
    digits; and the loop of Encode always ends within its fuel. *)
Theorem encode_equiv_spec s : code_units_ok s -> Encode s = Some (encodeURIComponent s).
Proof. intros Hok. by apply encode_loop_enough. Qed.

(** ** Witnesses *)

(** U+00E9, the pair D83D DE00 (U+1F600) and a space. *)
Lemma encode_equiv_spec_witness :
  code_units_ok [0xE9; 0xD83D; 0xDE00; 32] /\
  Encode [0xE9; 0xD83D; 0xDE00; 32] = Some (encodeURIComponent [0xE9; 0xD83D; 0xDE00; 32]).
Proof.
  assert (code_units_ok [0xE9; 0xD83D; 0xDE00; 32]) as Hok by (repeat constructor; lia).
  split; [exact Hok | exact (encode_equiv_spec _ Hok)].
Defined.
