(* ===== verification/CatalogClient.v ===== *)
(** * The Remote Catalog Client: fetchTMDB and the endpoints

    [fetchTMDB] (App.jsx 11-18) is split at its first [await]: the URL it
    hands to [fetch] ([tmdb_url]), and the continuation that runs when the
    network answers ([fetchTMDB_settle]).  The network's answer is a
    [fetch_outcome]: a rejected [fetch] (a TypeError), or a response with
    its status and its body, [None] when [response.json()] rejects on a
    malformed body.  The continuation throws [Error("Failed to fetch TMDB
    data")] when [response.ok] is false and otherwise returns the parsed body.

    [movies_endpoint] is the endpoint selection of [fetchMovies]
    (App.jsx 42-44) and [TRENDING_ENDPOINT] the literal of
    [loadTrendingMovies] (App.jsx 62).  The API key is the value of
    [import.meta.env.VITE_TMDB_API_KEY], a string or [undefined]; the
    template literal writes [undefined] as the text "undefined".

    [query_params] is the reference reading of a URL's query string
    (after the first [?], up to a [#], split at [&], each at its first [=]),
    used to state what the server receives. *)

From stdpp Require Import base list options.
From Stdlib Require Import ZArith Lia.
From Stdlib Require String.
Import String.StringSyntax.
From S2P Require Import Prelude JsValue UriEncode.

(** ** fetchTMDB *)

Definition API_BASE_URL : jsstr := str "https://api.themoviedb.org/3".

(** [`${API_KEY}`] for a value that may be [undefined]. *)
Definition template_key (key : option jsstr) : jsstr :=
  match key with
  | Some k => k
  | None => str "undefined"
  end.

Definition tmdb_url (API_KEY : option jsstr) (endpoint : jsstr) : jsstr :=
  API_BASE_URL ++ endpoint ++ str "&api_key=" ++ template_key API_KEY.

Inductive fetch_outcome :=
| NetworkFailure
| HttpResponse (status : Z) (body : option jsval).

(** [response.ok]: a status in the range 200-299. *)
Definition response_ok (status : Z) : bool := (200 <=? status)%Z && (status <=? 299)%Z.

(** What [await fetchTMDB(endpoint)] returns or throws, once [fetch] settles. *)
Definition fetchTMDB_settle (o : fetch_outcome) : result js_error jsval :=
  match o with
  | NetworkFailure => Err JsTypeError
  | HttpResponse status body =>
      if response_ok status then
        match body with
        | Some v => Ok v
        | None => Err JsSyntaxError
        end
      else Err (JsError (str "Failed to fetch TMDB data"))
  end.

(** ** Endpoints *)

Definition SEARCH_PREFIX : jsstr := str "/search/movie?query=".
Definition DISCOVER_ENDPOINT : jsstr := str "/discover/movie?sort_by=popularity.desc".
Definition TRENDING_ENDPOINT : jsstr := str "/trending/movie/week?".

(** [query ? `/search/movie?query=${encodeURIComponent(query)}`
           : `/discover/movie?sort_by=popularity.desc`] *)
Definition movies_endpoint (query : jsstr) : result js_error jsstr :=
  if truthy (JString query) then
    q <- encodeURIComponent query ;; Ok (SEARCH_PREFIX ++ q)
  else Ok DISCOVER_ENDPOINT.

(** ** Reading a URL's query string *)

Fixpoint split_at (sep : Z) (s : jsstr) : jsstr * option jsstr :=
  match s with
  | [] => ([], None)
  | c :: rest =>
      if (c =? sep)%Z then ([], Some rest)
      else let '(a, b) := split_at sep rest in (c :: a, b)
  end.

Fixpoint split_all (sep : Z) (s : jsstr) (fuel : nat) : list jsstr :=
  match fuel with
  | O => [s]
  | S fuel' =>
      match split_at sep s with
      | (a, None) => [a]
      | (a, Some rest) => a :: split_all sep rest fuel'
      end
  end.

Definition param_of (seg : jsstr) : jsstr * jsstr :=
  match split_at 61 seg with
  | (k, Some v) => (k, v)
  | (k, None) => (k, [])
  end.

(** [?] is 63, [#] is 35, [&] is 38 and [=] is 61.  The fuel [length url]
    is enough: every split consumes at least one code unit. *)
Definition query_params (url : jsstr) : list (jsstr * jsstr) :=
  match split_at 63 url with
  | (_, None) => []
  | (_, Some q) =>
      let q' := fst (split_at 35 q) in
      map param_of (split_all 38 q' (length url))
  end.

(** ** The client's interface

    What the orchestrators use of the client: the URL issued for an
    endpoint and the continuation of the call.  [tmdb_catalog] is the
    implementation of App.jsx, with the API key as an explicit parameter. *)

Class Catalog := {
  catalog_url : jsstr -> jsstr;
  catalog_settle : fetch_outcome -> result js_error jsval
}.

Definition tmdb_catalog (API_KEY : option jsstr) : Catalog :=
  {| catalog_url := tmdb_url API_KEY; catalog_settle := fetchTMDB_settle |}.

(** A code unit that cannot end a query parameter: neither [&] nor [#]. *)
Definition seg_char (c : Z) : Prop := (c <> 38 /\ c <> 35)%Z.

(** A configuration value that cannot break the query string. *)
Definition key_plain (key : jsstr) : Prop := Forall seg_char key.

(** ** Examples *)

Example url_discover :
  query_params (tmdb_url (Some (str "K")) DISCOVER_ENDPOINT) =
  [(str "sort_by", str "popularity.desc"); (str "api_key", str "K")].
Proof. vm_compute. reflexivity. Qed.

Example url_trending :
  query_params (tmdb_url None TRENDING_ENDPOINT) =
  [([], []); (str "api_key", str "undefined")].
Proof. vm_compute. reflexivity. Qed.

(** ** Splitting a URL *)

Local Open Scope Z_scope.

(** [Forall seg_char] of a concatenation of literals and hypotheses. *)
Ltac seg_forall :=
  repeat first
    [ assumption
    | apply Forall_app; split
    | apply Forall_cons; split; [unfold seg_char; lia |]
    | literal_forall
    | match goal with
      | H : Forall (fun c => c <> 35 /\ c <> 38 /\ _) ?e |- Forall seg_char ?e =>
          eapply Forall_impl; [exact H | unfold seg_char; intros ? (? & ? & _); lia]
      end ].

Lemma split_at_app sep a b :
  Forall (fun c => c <> sep) a ->
  split_at sep (a ++ b) = (a ++ (split_at sep b).1, (split_at sep b).2).
Proof.
  induction 1 as [|x a Hx _ IH]; simpl; [by destruct (split_at sep b) |].
  destruct (Z.eqb_spec x sep); [done |]. rewrite IH. done.
Qed.

Lemma split_at_none sep a : Forall (fun c => c <> sep) a -> split_at sep a = (a, None).
Proof.
  induction 1 as [|x a Hx _ IH]; simpl; [done |].
  destruct (Z.eqb_spec x sep); [done |]. by rewrite IH.
Qed.

Lemma split_at_here sep b : split_at sep (sep :: b) = ([], Some b).
Proof. simpl. by rewrite Z.eqb_refl. Qed.

Lemma split_at_first sep a b :
  Forall (fun c => c <> sep) a -> split_at sep (a ++ sep :: b) = (a, Some b).
Proof. intros H. rewrite split_at_app, split_at_here by done. simpl. by rewrite app_nil_r. Qed.

Lemma split_all_two sep a b fuel :
  Forall (fun c => c <> sep) a -> Forall (fun c => c <> sep) b -> (2 <= fuel)%nat ->
  split_all sep (a ++ sep :: b) fuel = [a; b].
Proof.
  intros Ha Hb Hf. destruct fuel as [|[|fuel]]; [lia | lia |]. simpl.
  rewrite split_at_first by done. simpl. by rewrite split_at_none.
Qed.

(** A query string [pre?seg1&seg2] with no other [?], [&] or [#]. *)
Lemma query_params_two pre seg1 seg2 :
  Forall (fun c => c <> 63) pre -> Forall seg_char seg1 -> Forall seg_char seg2 ->
  query_params (pre ++ 63 :: seg1 ++ 38 :: seg2) = [param_of seg1; param_of seg2].
Proof.
  intros Hpre H1 H2. unfold query_params. rewrite split_at_first by done.
  rewrite (split_at_none 35).
  2: { apply Forall_app; split; [| constructor; [lia |]];
       eapply Forall_impl; eauto; by intros ? []. }
  cbn [fst]. rewrite split_all_two; [done | ..].
  - eapply Forall_impl; [exact H1 |]. by intros ? [].
  - eapply Forall_impl; [exact H2 |]. by intros ? [].
  - rewrite length_app. simpl. rewrite length_app. simpl. lia.
Qed.

Lemma param_of_eq k v : Forall (fun c => c <> 61) k -> param_of (k ++ 61 :: v) = (k, v).
Proof. intros Hk. unfold param_of. by rewrite split_at_first. Qed.

Lemma safe_not_delim c : uri_safe c = true -> c <> 35 /\ c <> 38 /\ c <> 61 /\ c <> 63.
Proof. intros H. split_and!; intros ->; discriminate H. Qed.


(** C7. The URL of a search: for a non-empty query typed as a JavaScript
    string, [fetchMovies] fetches [tmdb_url key (SEARCH_PREFIX ++ e)] with
    [e] the encoded query; its query string is exactly the two parameters
    [query=e] and [api_key=key] (the text cannot inject a parameter or cut
    the key off), and decoding [e] gives back the text typed. *)
Theorem search_url_roundtrip key q e :
  code_units_ok q -> q <> [] -> key_plain key -> encodeURIComponent q = Ok e ->
  movies_endpoint q = Ok (SEARCH_PREFIX ++ e) /\
  query_params (tmdb_url (Some key) (SEARCH_PREFIX ++ e)) =
    [(str "query", e); (str "api_key", key)] /\
  decodeURIComponent_ref e = Some q.
Proof.
  intros Hq Hne Hkey Henc.
  pose proof (Forall_impl _ _ _ (encode_alphabet q e Hq Henc) safe_not_delim) as He.
  split_and!; [| | by apply encode_decode].
  - unfold movies_endpoint. rewrite Henc. by destruct q.
  - unfold tmdb_url, template_key.
    replace (API_BASE_URL ++ (SEARCH_PREFIX ++ e) ++ str "&api_key=" ++ key) with
      ((API_BASE_URL ++ str "/search/movie") ++ 63 ::
         (str "query" ++ 61 :: e) ++ 38 :: (str "api_key" ++ 61 :: key))
      by (by rewrite <- !app_assoc).
    rewrite query_params_two, !param_of_eq by (try literal_forall; seg_forall).
    reflexivity.
Qed.

(** C8. The other two URLs: an empty query selects the discover
    endpoint, whose query string is [sort_by=popularity.desc] and the key;
    the trending URL carries an empty parameter (the [?&] of the
    template) and the key.  When [VITE_TMDB_API_KEY] is not set, the key
    sent is the text "undefined": nothing checks the configuration. *)
Theorem endpoint_query_strings key :
  key_plain (template_key key) ->
  movies_endpoint [] = Ok DISCOVER_ENDPOINT /\
  query_params (tmdb_url key DISCOVER_ENDPOINT) =
    [(str "sort_by", str "popularity.desc"); (str "api_key", template_key key)] /\
  query_params (tmdb_url key TRENDING_ENDPOINT) = [([], []); (str "api_key", template_key key)].
Proof.
  intros Hkey. unfold tmdb_url. split_and!; [done | |].
  - replace (API_BASE_URL ++ DISCOVER_ENDPOINT ++ str "&api_key=" ++ template_key key) with
      ((API_BASE_URL ++ str "/discover/movie") ++ 63 ::
         (str "sort_by" ++ 61 :: str "popularity.desc") ++ 38 :: (str "api_key" ++ 61 :: template_key key))
      by (by rewrite <- !app_assoc).
    rewrite query_params_two, !param_of_eq by (try literal_forall; seg_forall). reflexivity.
  - replace (API_BASE_URL ++ TRENDING_ENDPOINT ++ str "&api_key=" ++ template_key key) with
      ((API_BASE_URL ++ str "/trending/movie/week") ++ 63 ::
         [] ++ 38 :: (str "api_key" ++ 61 :: template_key key))
      by (by rewrite <- !app_assoc).
    rewrite query_params_two, param_of_eq by (try literal_forall; seg_forall). reflexivity.
Qed.

(** ** Witnesses *)

Lemma search_url_roundtrip_witness :
  encodeURIComponent (str "a&b") = Ok (str "a%26b") /\
  query_params (tmdb_url (Some (str "K")) (SEARCH_PREFIX ++ str "a%26b")) =
    [(str "query", str "a%26b"); (str "api_key", str "K")].
Proof.
  split; [vm_compute; reflexivity |].
  eapply proj1, proj2, (search_url_roundtrip (str "K") (str "a&b") (str "a%26b")).
  - literal_forall.
  - discriminate.
  - literal_forall.
  - vm_compute. reflexivity.
Defined.

Lemma endpoint_query_strings_witness :
  key_plain (template_key None) /\
  query_params (tmdb_url None DISCOVER_ENDPOINT) =
    [(str "sort_by", str "popularity.desc"); (str "api_key", str "undefined")].
Proof.
  assert (Hk : key_plain (template_key None)) by (unfold key_plain, seg_char; literal_forall).
  split; [exact Hk |]. exact (proj1 (proj2 (endpoint_query_strings None Hk))).
Defined.
