(* ===== verification/Debounce.v ===== *)
(** * The Debounce Scheduler: the timer of useDebounce

    App.jsx 33 calls [useDebounce(() => setDebouncedSearchTerm(searchTerm),
    700, [searchTerm])] from react-use.  The hook keeps one timeout: its
    effect on [[searchTerm]] clears the pending timeout and sets a new one of
    700 ms (on mount too); when the timeout elapses it calls the latest
    callback once, and nothing happens until [searchTerm] changes again.

    The timer is its deadline, an absolute time in milliseconds, or [None]
    when no timeout is pending.  The library is not code of the repository:
    these definitions follow the spec (section 4.2) and react-use's
    documented behaviour.  The callback itself, and what it triggers, is
    modelled in [App]. *)

From stdpp Require Import base list.
From Stdlib Require Import Lia.
From S2P Require Import Prelude.

Abbreviation timer := (option nat).

Definition DEBOUNCE_MS : nat := 700.

(** The effect on [[searchTerm]]: replace any pending timeout. *)
Definition debounce_reset (now : nat) : timer := Some (now + DEBOUNCE_MS).

(** Whether the pending timeout has elapsed at time [now]. *)
Definition debounce_due (t : timer) (now : nat) : bool :=
  match t with
  | Some deadline => deadline <=? now
  | None => false
  end.

Lemma debounce_reset_not_due now dt :
  dt < DEBOUNCE_MS -> debounce_due (debounce_reset now) (now + dt) = false.
Proof. intros H. unfold debounce_due, debounce_reset. apply Nat.leb_gt. lia. Qed.

Lemma debounce_reset_due now dt :
  DEBOUNCE_MS <= dt -> debounce_due (debounce_reset now) (now + dt) = true.
Proof. intros H. unfold debounce_due, debounce_reset. apply Nat.leb_le. lia. Qed.

Lemma debounce_none_not_due now : debounce_due None now = false.
Proof. reflexivity. Qed.

#[export] Hint Rewrite debounce_none_not_due : app_rw.
