(* ===== verification/FetchState.v ===== *)
(** * FetchState: the abstract contract of one data stream

    The spec (sections 3 and 4.3) describes each stream by a tagged union
    {Idle, Loading, Success(items), Failure(message)} with exactly one tag
    active, Loading set when a fetch starts and replaced by Success or
    Failure when it ends.  This file states that contract as a partial
    transition function [fs_next] on abstract events: a fetch may begin in
    any state, and only a loading stream may resolve or reject.  [fs_run]
    runs a list of events and fails on a transition the contract forbids. *)

From stdpp Require Import base list options.
From S2P Require Import Prelude JsValue.

Inductive fetch_state :=
| FIdle
| FLoading
| FSuccess (items : jsval)
| FFailure (msg : jsstr).

Inductive fs_event :=
| FsBegin
| FsResolve (items : jsval)
| FsReject (msg : jsstr).

Definition fs_next (a : fetch_state) (ev : fs_event) : option fetch_state :=
  match ev, a with
  | FsBegin, _ => Some FLoading
  | FsResolve r, FLoading => Some (FSuccess r)
  | FsReject m, FLoading => Some (FFailure m)
  | _, _ => None
  end.

Fixpoint fs_run (a : fetch_state) (evs : list fs_event) : option fetch_state :=
  match evs with
  | [] => Some a
  | ev :: evs' => fs_next a ev ≫= fun a' => fs_run a' evs'
  end.

Lemma fs_run_app a evs1 evs2 :
  fs_run a (evs1 ++ evs2) = fs_run a evs1 ≫= fun a' => fs_run a' evs2.
Proof.
  revert a. induction evs1 as [|ev evs1 IH]; intros a; simpl; [done |].
  destruct (fs_next a ev); simpl; [apply IH | done].
Qed.

(** A stream that is not loading cannot resolve: the contract rejects a
    late answer. *)
Lemma fs_next_resolve_not_loading a r :
  a <> FLoading -> fs_next a (FsResolve r) = None.
Proof. destruct a; simpl; congruence. Qed.
