(* ===== verification/App.v ===== *)
(** * The App component as a state machine

    [app_state] has one field per [useState] hook of [App] (App.jsx 21-30),
    the three hooks of each data stream grouped in a [stream_state]
    ([movieList, errorMessage, isLoading] and [trendingMovies,
    trendingErrorMsg, isLoadingTrending]), and the runtime's part: the clock,
    the debounce timer, the fetches in flight, the log of every request
    issued and the log of [console.error].

    An [event] is what the outside world does: a keystroke in the search box
    ([setSearchTerm(v)]), the passage of time, or the settling of one fetch in
    flight with the network's answer.  [app_step] runs the handlers and the
    effects React runs after the render that the event causes.  The async
    functions [fetchMovies] and [loadTrendingMovies] are split at their
    first [await]: the synchronous part issues the fetch and the [_settle]
    part is the continuation, which writes all its state at once (there is
    no write between the two awaits of [fetchTMDB]).

    The orchestrators use the client through the [Catalog] interface, so
    the invariants below hold for any client; [tmdb_catalog] is App.jsx's. *)

From stdpp Require Import base list options sets.
From Stdlib Require Import ZArith Lia.
From Stdlib Require String.
Import String.StringSyntax.
From S2P Require Import Prelude JsValue UriEncode CatalogClient Debounce.

Inductive stream := SearchStream | TrendingStream.

#[export] Instance stream_eq_dec : EqDecision stream.
Proof. solve_decision. Defined.

(** A fetch in flight, or issued: its id, the stream that issued it and its URL. *)
Record task := mk_task { task_id : nat; task_stream : stream; task_url : jsstr }.

(** The three hooks of one stream: the list, the error message ([null] is
    [None]) and the loading flag. *)
Record stream_state := mk_stream { items : jsval; error_msg : option jsstr; loading : bool }.

Record app_state := mk_app {
  searchTerm : jsstr;
  debouncedSearchTerm : jsstr;
  search : stream_state;
  trending : stream_state;
  clock : nat;
  debounce_timer : timer;
  pending : list task;
  next_id : nat;
  requests : list task;
  console : list (jsstr * js_error)
}.

Inductive event :=
| KeyInput (v : jsstr)
| Tick (dt : nat)
| Settle (id : nat) (o : fetch_outcome).

Definition SEARCH_ERROR_MSG : jsstr := str "Error fetching movies.".
Definition SEARCH_LOG_LABEL : jsstr := str "Error fetching movies:".
Definition TRENDING_ERROR_MSG : jsstr := str "Error fetching trending movies!".
Definition TRENDING_LOG_LABEL : jsstr := str "Error fetching trending movies:".

(** ** State updates, one per group of fields *)

Definition set_search (ss : stream_state) (s : app_state) : app_state :=
  mk_app (searchTerm s) (debouncedSearchTerm s) ss (trending s) (clock s)
    (debounce_timer s) (pending s) (next_id s) (requests s) (console s).

Definition set_trending (ss : stream_state) (s : app_state) : app_state :=
  mk_app (searchTerm s) (debouncedSearchTerm s) (search s) ss (clock s)
    (debounce_timer s) (pending s) (next_id s) (requests s) (console s).

Definition set_input (v d : jsstr) (t : timer) (s : app_state) : app_state :=
  mk_app v d (search s) (trending s) (clock s) t (pending s) (next_id s) (requests s) (console s).

Definition set_clock (now : nat) (s : app_state) : app_state :=
  mk_app (searchTerm s) (debouncedSearchTerm s) (search s) (trending s) now
    (debounce_timer s) (pending s) (next_id s) (requests s) (console s).

Definition set_pending (ts : list task) (s : app_state) : app_state :=
  mk_app (searchTerm s) (debouncedSearchTerm s) (search s) (trending s) (clock s)
    (debounce_timer s) ts (next_id s) (requests s) (console s).

(** [console.error(label, err)] *)
Definition log_error (label : jsstr) (e : js_error) (s : app_state) : app_state :=
  mk_app (searchTerm s) (debouncedSearchTerm s) (search s) (trending s) (clock s)
    (debounce_timer s) (pending s) (next_id s) (requests s) (console s ++ [(label, e)]).

Definition stream_of (st : stream) (s : app_state) : stream_state :=
  match st with
  | SearchStream => search s
  | TrendingStream => trending s
  end.

Definition initial_stream : stream_state := mk_stream (JArray []) None false.

(** The first render: every [useState] initial value, nothing in flight. *)
Definition initial_state : app_state :=
  mk_app [] [] initial_stream initial_stream 0 None [] 0 [] [].

Section Orchestrators.
Context `{!Catalog}.

(** [fetch(url)] inside [fetchTMDB]: a new fetch in flight, logged. *)
Definition issue_fetch (st : stream) (endpoint : jsstr) (s : app_state) : app_state :=
  let t := mk_task (next_id s) st (catalog_url endpoint) in
  mk_app (searchTerm s) (debouncedSearchTerm s) (search s) (trending s) (clock s)
    (debounce_timer s) (pending s ++ [t]) (S (next_id s)) (requests s ++ [t]) (console s).

(** [const data = await fetchTMDB(..)] and [data.results || []]. *)
Definition settle_result (o : fetch_outcome) : result js_error jsval :=
  data <- catalog_settle o ;; results_or_empty data.

(** [fetchMovies(query)] up to its first [await]: [setIsLoading(true)],
    [setErrorMessage("")], the endpoint, and the call to [fetch]; when
    [encodeURIComponent] throws, the [catch] and [finally] run at once. *)
Definition fetchMovies (query : jsstr) (s : app_state) : app_state :=
  let s1 := set_search (mk_stream (items (search s)) (Some []) true) s in
  match movies_endpoint query with
  | Ok endpoint => issue_fetch SearchStream endpoint s1
  | Err e =>
      set_search (mk_stream (items (search s)) (Some SEARCH_ERROR_MSG) false)
        (log_error SEARCH_LOG_LABEL e s1)
  end.

(** The rest of [fetchMovies] once its fetch settles: [setMovieList] or the
    [catch], then [finally]. *)
Definition fetchMovies_settle (o : fetch_outcome) (s : app_state) : app_state :=
  let ss := search s in
  match settle_result o with
  | Ok r => set_search (mk_stream r (error_msg ss) false) s
  | Err e =>
      set_search (mk_stream (items ss) (Some SEARCH_ERROR_MSG) false)
        (log_error SEARCH_LOG_LABEL e s)
  end.

(** [loadTrendingMovies()] up to its first [await]. *)
Definition loadTrendingMovies (s : app_state) : app_state :=
  issue_fetch TrendingStream TRENDING_ENDPOINT
    (set_trending (mk_stream (items (trending s)) (Some []) true) s).

Definition loadTrendingMovies_settle (o : fetch_outcome) (s : app_state) : app_state :=
  let ts := trending s in
  match settle_result o with
  | Ok r => set_trending (mk_stream r (error_msg ts) false) s
  | Err e =>
      set_trending (mk_stream (items ts) (Some TRENDING_ERROR_MSG) false)
        (log_error TRENDING_LOG_LABEL e s)
  end.

(** The effects of the first commit, in the order the component declares
    them: [useDebounce] sets its timeout, the effect on
    [[debouncedSearchTerm]] calls [fetchMovies], the mount effect calls
    [loadTrendingMovies]. *)
Definition app_mount (s : app_state) : app_state :=
  let s1 := set_input (searchTerm s) (debouncedSearchTerm s) (debounce_reset (clock s)) s in
  loadTrendingMovies (fetchMovies (debouncedSearchTerm s1) s1).

Definition app_init : app_state := app_mount initial_state.

(** [setSearchTerm(v)]: React bails out when the value is the same;
    otherwise the effect of [useDebounce] on [[searchTerm]] restarts the
    timeout. *)
Definition on_input (v : jsstr) (s : app_state) : app_state :=
  if decide (v = searchTerm s) then s
  else set_input v (debouncedSearchTerm s) (debounce_reset (clock s)) s.

(** The timeout's callback [setDebouncedSearchTerm(searchTerm)] and, when
    the value changed, the effect on [[debouncedSearchTerm]]. *)
Definition on_debounced (s : app_state) : app_state :=
  if decide (searchTerm s = debouncedSearchTerm s) then s
  else fetchMovies (searchTerm s) (set_input (searchTerm s) (searchTerm s) (debounce_timer s) s).

Definition on_tick (dt : nat) (s : app_state) : app_state :=
  let s1 := set_clock (clock s + dt) s in
  if debounce_due (debounce_timer s) (clock s1)
  then on_debounced (set_input (searchTerm s1) (debouncedSearchTerm s1) None s1)
  else s1.

Fixpoint take_task (id : nat) (ts : list task) : option (task * list task) :=
  match ts with
  | [] => None
  | t :: ts' =>
      if decide (task_id t = id) then Some (t, ts')
      else (fun '(t', r) => (t', t :: r)) <$> take_task id ts'
  end.

Definition on_settle (id : nat) (o : fetch_outcome) (s : app_state) : app_state :=
  match take_task id (pending s) with
  | None => s
  | Some (t, rest) =>
      let s1 := set_pending rest s in
      match task_stream t with
      | SearchStream => fetchMovies_settle o s1
      | TrendingStream => loadTrendingMovies_settle o s1
      end
  end.

Definition app_step (s : app_state) (e : event) : app_state :=
  match e with
  | KeyInput v => on_input v s
  | Tick dt => on_tick dt s
  | Settle id o => on_settle id o s
  end.

Definition run (s : app_state) (es : list event) : app_state := fold_left app_step es s.

Inductive reachable : app_state -> Prop :=
| reachable_init : reachable app_init
| reachable_step s e : reachable s -> reachable (app_step s e).

End Orchestrators.

(** App.jsx's client when [VITE_TMDB_API_KEY] is not set, used by the witnesses. *)
Definition tmdb_nokey : Catalog := tmdb_catalog None.

(** The message each stream shows on failure, and the label it logs. *)
Definition error_message_of (st : stream) : jsstr :=
  match st with
  | SearchStream => SEARCH_ERROR_MSG
  | TrendingStream => TRENDING_ERROR_MSG
  end.

Definition log_label_of (st : stream) : jsstr :=
  match st with
  | SearchStream => SEARCH_LOG_LABEL
  | TrendingStream => TRENDING_LOG_LABEL
  end.

(** Keystrokes separated by pauses: each pair is a value typed and the
    time that passes before the next keystroke. *)
Definition typing (ks : list (jsstr * nat)) : list event :=
  flat_map (fun k => [KeyInput k.1; Tick k.2]) ks.

(** Each value differs from the one before it (the first from [prev]). *)
Fixpoint keys_change (prev : jsstr) (vs : list jsstr) : Prop :=
  match vs with
  | [] => True
  | v :: vs' => v <> prev /\ keys_change v vs'
  end.

(** ** Lemmas on the handlers *)

Section HandlerLemmas.
Context `{!Catalog}.

Lemma take_task_Some id ts t rest :
  take_task id ts = Some (t, rest) -> task_id t = id /\ ts ≡ₚ t :: rest.
Proof.
  revert rest. induction ts as [|t' ts IH]; intros rest; simpl; [done |].
  case_decide; [intros [= -> ->]; done |].
  destruct (take_task id ts) as [[t'' r]|] eqn:E; simpl; [| done].
  intros [= -> <-]. destruct (IH r eq_refl) as [? Hp]. split; [done |].
  rewrite Hp. apply Permutation_swap.
Qed.

(** A task of another stream survives the removal of the settled one. *)
Lemma take_task_keeps id ts t rest t' :
  take_task id ts = Some (t, rest) -> t' ∈ ts -> task_stream t' <> task_stream t -> t' ∈ rest.
Proof.
  intros (_ & Hp)%take_task_Some Hin Hne. rewrite Hp in Hin.
  apply elem_of_cons in Hin as [->|]; [done | done].
Qed.

Lemma fetchMovies_trending q s : trending (fetchMovies q s) = trending s.
Proof. unfold fetchMovies. by case_res. Qed.

Lemma fetchMovies_settle_trending o s : trending (fetchMovies_settle o s) = trending s.
Proof. unfold fetchMovies_settle. by case_res. Qed.

Lemma loadTrendingMovies_settle_search o s : search (loadTrendingMovies_settle o s) = search s.
Proof. unfold loadTrendingMovies_settle. by case_res. Qed.

Lemma fetchMovies_settle_pending o s : pending (fetchMovies_settle o s) = pending s.
Proof. unfold fetchMovies_settle. by case_res. Qed.

Lemma loadTrendingMovies_settle_pending o s : pending (loadTrendingMovies_settle o s) = pending s.
Proof. unfold loadTrendingMovies_settle. by case_res. Qed.

Lemma fetchMovies_settle_not_loading o s : loading (search (fetchMovies_settle o s)) = false.
Proof. unfold fetchMovies_settle. by case_res. Qed.

Lemma loadTrendingMovies_settle_not_loading o s :
  loading (trending (loadTrendingMovies_settle o s)) = false.
Proof. unfold loadTrendingMovies_settle. by case_res. Qed.

End HandlerLemmas.

#[export] Hint Rewrite @fetchMovies_trending @fetchMovies_settle_trending
  @loadTrendingMovies_settle_search @fetchMovies_settle_pending
  @loadTrendingMovies_settle_pending @fetchMovies_settle_not_loading
  @loadTrendingMovies_settle_not_loading : app_rw.

(** ** Invariants of the reachable states *)

Section Invariants.
Context `{!Catalog}.

(** A stream shows its spinner only while one of its fetches is in flight. *)
Definition loading_inv (s : app_state) : Prop :=
  forall st, loading (stream_of st s) = true -> exists t, t ∈ pending s /\ task_stream t = st.

(** The invariant is kept by any update that keeps every pending fetch and
    turns a spinner on only with a fetch of its stream in flight. *)
Lemma loading_inv_frame s s' :
  loading_inv s ->
  (forall t, t ∈ pending s -> t ∈ pending s') ->
  (forall st, loading (stream_of st s') = true ->
     loading (stream_of st s) = true \/ exists t, t ∈ pending s' /\ task_stream t = st) ->
  loading_inv s'.
Proof.
  intros Hinv Hsub Hload st Hst.
  destruct (Hload st Hst) as [(t & ? & ?)%Hinv | ?]; eauto.
Qed.

Lemma loading_inv_issue st ep s :
  loading_inv s -> loading_inv (issue_fetch st ep s).
Proof.
  intros Hinv. apply loading_inv_frame with s; [done | | by left].
  intros t Ht. simpl. set_solver.
Qed.

Lemma loading_inv_fetchMovies q s : loading_inv s -> loading_inv (fetchMovies q s).
Proof.
  intros Hinv. unfold fetchMovies. destruct (movies_endpoint q) eqn:E.
  - apply loading_inv_frame with s; [done | simpl; set_solver |].
    intros [|]; simpl; [| by left].
    intros _. right. eexists. split; [apply elem_of_app; right; by left | done].
  - apply loading_inv_frame with s; [done | done |].
    intros [|]; simpl; [done | by left].
Qed.

Lemma loading_inv_loadTrending s : loading_inv s -> loading_inv (loadTrendingMovies s).
Proof.
  intros Hinv. apply loading_inv_frame with s; [done | simpl; set_solver |].
  intros [|]; simpl; [by left |].
  intros _. right. eexists. split; [apply elem_of_app; right; by left | done].
Qed.

Lemma loading_inv_set_input v d t s : loading_inv s -> loading_inv (set_input v d t s).
Proof. done. Qed.

Lemma loading_inv_set_clock n s : loading_inv s -> loading_inv (set_clock n s).
Proof. done. Qed.

Lemma loading_inv_tick dt s : loading_inv s -> loading_inv (on_tick dt s).
Proof.
  intros Hinv. unfold on_tick, on_debounced.
  destruct (debounce_due _ _); [| done].
  case_decide; [done |]. by apply loading_inv_fetchMovies.
Qed.

Lemma loading_inv_settle id o s : loading_inv s -> loading_inv (on_settle id o s).
Proof.
  intros Hinv. unfold on_settle.
  destruct (take_task id (pending s)) as [[t rest]|] eqn:E; [| done].
  intros st Hst.
  assert (Hother : st <> task_stream t ->
            loading (stream_of st s) = true -> exists t', t' ∈ rest /\ task_stream t' = st).
  { intros Hne (t' & Hin & <-)%Hinv. exists t'. split; [| done].
    eapply take_task_keeps; eauto. }
  destruct (task_stream t) eqn:Ht, st; simpl in *; autorewrite with app_rw in *;
    try done; apply Hother; by try rewrite Ht.
Qed.

Lemma loading_inv_step s e : loading_inv s -> loading_inv (app_step s e).
Proof.
  destruct e; simpl.
  - unfold on_input. case_decide; [done | apply loading_inv_set_input].
  - apply loading_inv_tick.
  - apply loading_inv_settle.
Qed.

Lemma loading_inv_init : loading_inv app_init.
Proof.
  apply loading_inv_loadTrending, loading_inv_fetchMovies.
  intros [|]; done.
Qed.

Lemma reachable_loading_inv s : reachable s -> loading_inv s.
Proof.
  induction 1.
  - apply loading_inv_init.
  - by apply loading_inv_step.
Qed.

(** C1. In every reachable state, a stream whose loading flag is set has a
    fetch of its own in flight: the spinner never shows without a request
    that can clear it. *)
Theorem loading_implies_pending s st :
  reachable s -> loading (stream_of st s) = true ->
  exists t, t ∈ pending s /\ task_stream t = st.
Proof.
  intros Hr. by apply reachable_loading_inv.
Qed.

End Invariants.

(** ** The requests a step issues *)

Section Requests.
Context `{!Catalog}.

Definition of_stream (st : stream) (ts : list task) : list task :=
  filter (fun t => task_stream t = st) ts.

Lemma of_stream_app st ts1 ts2 : of_stream st (ts1 ++ ts2) = of_stream st ts1 ++ of_stream st ts2.
Proof. apply filter_app. Qed.

Lemma of_stream_task st st' i u :
  of_stream st [mk_task i st' u] = if decide (st' = st) then [mk_task i st' u] else [].
Proof. unfold of_stream. rewrite filter_cons, filter_nil. simpl. by case_decide. Qed.

#[local] Hint Rewrite of_stream_app of_stream_task : app_rw.

(** The search requests [fetchMovies] adds: one, unless
    [encodeURIComponent] throws. *)
Definition issued_by_fetchMovies (q : jsstr) (i : nat) : list task :=
  match movies_endpoint q with
  | Ok ep => [mk_task i SearchStream (catalog_url ep)]
  | Err _ => []
  end.

Lemma fetchMovies_requests q s :
  requests (fetchMovies q s) = requests s ++ issued_by_fetchMovies q (next_id s).
Proof.
  unfold fetchMovies, issued_by_fetchMovies.
  destruct (movies_endpoint q); simpl; [done | by rewrite app_nil_r].
Qed.

Lemma issued_by_fetchMovies_trending q i :
  of_stream TrendingStream (issued_by_fetchMovies q i) = [].
Proof. unfold issued_by_fetchMovies. by destruct (movies_endpoint q). Qed.

Lemma loadTrendingMovies_requests s :
  requests (loadTrendingMovies s) =
  requests s ++ [mk_task (next_id s) TrendingStream (catalog_url TRENDING_ENDPOINT)].
Proof. reflexivity. Qed.

#[local] Hint Rewrite issued_by_fetchMovies_trending : app_rw.

Lemma fetchMovies_settle_requests o s : requests (fetchMovies_settle o s) = requests s.
Proof. unfold fetchMovies_settle. by case_res. Qed.

Lemma loadTrendingMovies_settle_requests o s : requests (loadTrendingMovies_settle o s) = requests s.
Proof. unfold loadTrendingMovies_settle. by case_res. Qed.

Lemma fetchMovies_debounced q s : debouncedSearchTerm (fetchMovies q s) = debouncedSearchTerm s.
Proof. unfold fetchMovies. by case_res. Qed.

Lemma settle_debounced id o s : debouncedSearchTerm (on_settle id o s) = debouncedSearchTerm s.
Proof.
  unfold on_settle, fetchMovies_settle, loadTrendingMovies_settle.
  destruct (take_task id (pending s)) as [[t r]|]; [| done].
  destruct (task_stream t); by case_res.
Qed.

Lemma settle_requests id o s : requests (on_settle id o s) = requests s.
Proof.
  unfold on_settle. destruct (take_task id (pending s)) as [[t r]|]; [| done].
  destruct (task_stream t);
    by rewrite ?fetchMovies_settle_requests, ?loadTrendingMovies_settle_requests.
Qed.

(** C3. The search requests of a step: a step that changes the debounced
    term issues exactly one search request, for the endpoint of the new
    term, unless [encodeURIComponent] throws; a step that leaves it
    unchanged issues none. *)
Theorem search_requests_step s e :
  of_stream SearchStream (requests (app_step s e)) =
  of_stream SearchStream (requests s) ++
    (if decide (debouncedSearchTerm (app_step s e) = debouncedSearchTerm s) then []
     else issued_by_fetchMovies (debouncedSearchTerm (app_step s e)) (next_id s)).
Proof.
  destruct e as [v|dt|id o]; simpl.
  - unfold on_input. case_decide; simpl; case_decide; by rewrite ?app_nil_r.
  - unfold on_tick, on_debounced. destruct (debounce_due _ _); simpl;
      [| case_decide; by rewrite ?app_nil_r].
    case_decide as Hsd; simpl; [case_decide; by rewrite ?app_nil_r |].
    rewrite fetchMovies_debounced, fetchMovies_requests. simpl.
    case_decide; [congruence |].
    unfold issued_by_fetchMovies. destruct (movies_endpoint _); autorewrite with app_rw;
      simpl; by rewrite ?app_nil_r.
  - rewrite settle_debounced, settle_requests. case_decide; [by rewrite app_nil_r | done].
Qed.

(** The trending requests never change after mount. *)
Lemma trending_requests_step s e :
  of_stream TrendingStream (requests (app_step s e)) = of_stream TrendingStream (requests s).
Proof.
  destruct e as [v|dt|id o]; simpl.
  - unfold on_input. by case_decide.
  - unfold on_tick, on_debounced. destruct (debounce_due _ _); [| done].
    case_decide; [done |]. rewrite fetchMovies_requests, of_stream_app.
    autorewrite with app_rw. by rewrite app_nil_r.
  - by rewrite settle_requests.
Qed.

(** C4. The trending list is requested exactly once in the life of the
    component, whatever the user types and however the fetches settle. *)
Theorem trending_requested_once s :
  reachable s -> length (of_stream TrendingStream (requests s)) = 1.
Proof.
  induction 1 as [|s e _ IH]; [| by rewrite trending_requests_step].
  unfold app_init, app_mount.
  rewrite loadTrendingMovies_requests, fetchMovies_requests.
  autorewrite with app_rw. done.
Qed.

End Requests.

(** ** Settling a fetch *)

Section Settle.
Context `{!Catalog}.

Lemma on_settle_found id o s t rest :
  take_task id (pending s) = Some (t, rest) ->
  app_step s (Settle id o) =
  match task_stream t with
  | SearchStream => fetchMovies_settle o (set_pending rest s)
  | TrendingStream => loadTrendingMovies_settle o (set_pending rest s)
  end.
Proof. intros E. simpl. unfold on_settle. by rewrite E. Qed.

Lemma on_settle_pending id o s t rest :
  take_task id (pending s) = Some (t, rest) -> pending (app_step s (Settle id o)) = rest.
Proof. intros E. rewrite (on_settle_found _ _ _ _ _ E). by destruct (task_stream t); autorewrite with app_rw. Qed.

(** C5. Isolation: when a fetch of one stream settles, whatever its
    outcome, the other stream's state is unchanged and its fetches in flight
    stay in flight. *)
Theorem settle_isolation s id o t rest st :
  take_task id (pending s) = Some (t, rest) -> task_stream t <> st ->
  stream_of st (app_step s (Settle id o)) = stream_of st s /\
  (forall t', t' ∈ pending s -> task_stream t' = st -> t' ∈ pending (app_step s (Settle id o))).
Proof.
  intros E Hne. split.
  - rewrite (on_settle_found _ _ _ _ _ E).
    destruct (task_stream t), st; autorewrite with app_rw; done.
  - intros t' Hin <-. rewrite (on_settle_pending _ _ _ _ _ E).
    eapply take_task_keeps; eauto.
Qed.

(** C12. Failure: when the continuation of a fetch throws (network failure,
    HTTP error, malformed body, null body), its stream keeps its list,
    shows its error message, clears its loading flag, and the error is
    logged with the stream's label. *)
Theorem settle_failure s id o t rest e :
  take_task id (pending s) = Some (t, rest) -> settle_result o = Err e ->
  stream_of (task_stream t) (app_step s (Settle id o)) =
    mk_stream (items (stream_of (task_stream t) s)) (Some (error_message_of (task_stream t))) false /\
  console (app_step s (Settle id o)) = console s ++ [(log_label_of (task_stream t), e)].
Proof.
  intros E Hr. rewrite (on_settle_found _ _ _ _ _ E).
  unfold fetchMovies_settle, loadTrendingMovies_settle. rewrite Hr.
  by destruct (task_stream t).
Qed.

(** C13. Success: when the continuation returns the list [r], its stream
    shows [r] and clears its loading flag, but keeps whatever error message
    it had: success does not reset [errorMessage]. *)
Theorem settle_success s id o t rest r :
  take_task id (pending s) = Some (t, rest) -> settle_result o = Ok r ->
  stream_of (task_stream t) (app_step s (Settle id o)) =
    mk_stream r (error_msg (stream_of (task_stream t) s)) false /\
  console (app_step s (Settle id o)) = console s.
Proof.
  intros E Hr. rewrite (on_settle_found _ _ _ _ _ E).
  unfold fetchMovies_settle, loadTrendingMovies_settle. rewrite Hr.
  by destruct (task_stream t).
Qed.

Lemma run_cons s e es : run s (e :: es) = run (app_step s e) es.
Proof. reflexivity. Qed.

Lemma reachable_run s es : reachable s -> reachable (run s es).
Proof. revert s. induction es; intros s Hr; [done |]. rewrite run_cons. apply IHes. by constructor. Qed.

(** Settling every fetch in flight, in order, empties [pending]. *)
Lemma settle_all_pending s (f : task -> fetch_outcome) :
  pending (run s (map (fun t => Settle (task_id t) (f t)) (pending s))) = [].
Proof.
  remember (pending s) as l eqn:El. revert s El.
  induction l as [|t l IH]; intros s El; [done |].
  simpl. apply IH. symmetry. apply (on_settle_pending _ _ _ t l).
  rewrite <- El. simpl. by case_decide.
Qed.

(** C2. Liveness of the loading flags: from any reachable state, once
    every fetch in flight has settled, whatever the outcomes, neither
    stream is loading. *)
Theorem settle_all_clears_loading s (f : task -> fetch_outcome) st :
  reachable s ->
  loading (stream_of st (run s (map (fun t => Settle (task_id t) (f t)) (pending s)))) = false.
Proof.
  intros Hr. destruct (loading _) eqn:E; [| done].
  apply (reachable_loading_inv _ (reachable_run _ _ Hr)) in E as (t & Hin & _).
  rewrite settle_all_pending in Hin. set_solver.
Qed.

End Settle.

(** ** Debouncing a burst of keystrokes *)

Section Burst.
Context `{!Catalog}.

(** One keystroke that changes the text, then less than the quiet period:
    the timer restarts and does not fire. *)
Lemma typing_pair s v d :
  v <> searchTerm s -> d < DEBOUNCE_MS ->
  run s [KeyInput v; Tick d] =
  set_clock (clock s + d) (set_input v (debouncedSearchTerm s) (debounce_reset (clock s)) s).
Proof.
  intros Hv Hd. simpl. unfold on_input. case_decide; [done |].
  unfold on_tick. cbn [set_clock set_input debounce_timer clock].
  by rewrite debounce_reset_not_due.
Qed.

Lemma run_typing_cons s k ks :
  run s (typing (k :: ks)) = run (run s [KeyInput k.1; Tick k.2]) (typing ks).
Proof. reflexivity. Qed.

Lemma typing_burst ks s v d :
  keys_change (searchTerm s) (map fst (ks ++ [(v, d)])) ->
  Forall (fun k => k.2 < DEBOUNCE_MS) (ks ++ [(v, d)]) ->
  let s1 := run s (typing (ks ++ [(v, d)])) in
  debouncedSearchTerm s1 = debouncedSearchTerm s /\ search s1 = search s /\
  requests s1 = requests s /\ next_id s1 = next_id s /\ searchTerm s1 = v /\
  exists c, debounce_timer s1 = debounce_reset c /\ clock s1 = c + d.
Proof.
  revert s. induction ks as [|[v0 d0] ks IH]; intros s Hch Hd; simpl in Hch.
  - destruct Hch as [Hv _]. apply Forall_cons in Hd as [Hd _]. simpl in Hd.
    simpl typing. rewrite typing_pair by done. simpl. eauto 10.
  - destruct Hch as [Hv Hch]. apply Forall_cons in Hd as [Hd0 Hd]. simpl in Hd0.
    rewrite <- app_comm_cons, run_typing_cons. cbn [fst snd].
    rewrite typing_pair by done.
    match goal with |- context [run ?s' (typing _)] => destruct (IH s' Hch Hd) as (? & ? & ? & ? & ? & ?) end.
    simpl in *. eauto 10.
Qed.

(** C9. Debounce: after a burst of keystrokes, each changing the text and
    each followed by less than 700 ms, the debounced term, the search list
    and the requests are unchanged; 699 ms after the last keystroke nothing
    has fired yet; 700 ms after it the debounced term is the last value and
    exactly the request for it (if it changed and encodes) has been issued. *)
Theorem debounce_burst s ks v d :
  keys_change (searchTerm s) (map fst (ks ++ [(v, d)])) ->
  Forall (fun k => k.2 < DEBOUNCE_MS) (ks ++ [(v, d)]) ->
  let s1 := run s (typing (ks ++ [(v, d)])) in
  debouncedSearchTerm s1 = debouncedSearchTerm s /\ search s1 = search s /\
  requests s1 = requests s /\
  debouncedSearchTerm (app_step s1 (Tick (DEBOUNCE_MS - d - 1))) = debouncedSearchTerm s /\
  debouncedSearchTerm (app_step s1 (Tick (DEBOUNCE_MS - d))) = v /\
  requests (app_step s1 (Tick (DEBOUNCE_MS - d))) =
    requests s ++ (if decide (v = debouncedSearchTerm s) then []
                   else issued_by_fetchMovies v (next_id s)).
Proof.
  intros Hch Hd. pose proof Hd as Hd'. apply Forall_app in Hd' as [_ Hlast].
  apply Forall_inv in Hlast. simpl in Hlast.
  destruct (typing_burst ks s v d Hch Hd) as (Hdb & Hs & Hrq & Hid & Hst & c & Ht & Hc).
  simpl. unfold on_tick. rewrite Ht, Hc. simpl.
  rewrite (proj2 (Nat.leb_gt _ _)), (proj2 (Nat.leb_le _ _)) by (unfold DEBOUNCE_MS in *; lia).
  split_and!; try done.
  - unfold on_debounced. simpl. rewrite Hst, Hdb. case_decide; [done |].
    by rewrite fetchMovies_debounced.
  - unfold on_debounced. simpl. rewrite Hst, Hdb. case_decide; [by rewrite app_nil_r |].
    rewrite fetchMovies_requests. simpl. by rewrite Hrq, Hid.
Qed.

End Burst.

(** ** The continuation with App.jsx's client *)

(** C16. With [fetchTMDB], the continuation of a fetch throws exactly in
    four cases: the network fails (TypeError), the status is not 2xx
    ([Error("Failed to fetch TMDB data")], the body is not read), the body
    is not JSON (SyntaxError), or the body is [null] (TypeError on
    [data.results]). *)
Theorem tmdb_settle_result_Err key o e :
  @settle_result (tmdb_catalog key) o = Err e <->
  (o = NetworkFailure /\ e = JsTypeError) \/
  (exists status body, o = HttpResponse status body /\ response_ok status = false /\
                       e = JsError (str "Failed to fetch TMDB data")) \/
  (exists status, o = HttpResponse status None /\ response_ok status = true /\ e = JsSyntaxError) \/
  (exists status v, o = HttpResponse status (Some v) /\ response_ok status = true /\
                    (v = JNull \/ v = JUndefined) /\ e = JsTypeError).
Proof.
  unfold settle_result, results_or_empty.
  destruct o as [|status [[]|]]; cbn -[response_ok str];
    try destruct (response_ok status) eqn:Hok; cbn -[str]; iff_cases.
Qed.

(** C17. With [fetchTMDB], the continuation returns a list exactly when
    the status is 2xx and the body is JSON other than [null]; the list is
    [data.results] when that is truthy and [[]] otherwise (a missing field
    included). *)
Theorem tmdb_settle_result_Ok key o r :
  @settle_result (tmdb_catalog key) o = Ok r <->
  exists status v rv, o = HttpResponse status (Some v) /\ response_ok status = true /\
    get_prop v (str "results") = Ok rv /\ r = (if truthy rv then rv else JArray []).
Proof.
  unfold settle_result, results_or_empty, js_or.
  destruct o as [|status [v|]]; cbn -[response_ok str get_prop];
    try destruct (response_ok status) eqn:Hok; cbn -[str get_prop]; try iff_cases.
  destruct (get_prop v _) eqn:Hg; cbn -[str get_prop]; iff_cases.
Qed.

(** ** Witnesses *)

#[local] Existing Instance tmdb_nokey.

Lemma loading_implies_pending_witness :
  @reachable tmdb_nokey (@app_init tmdb_nokey) /\
  loading (stream_of SearchStream (@app_init tmdb_nokey)) = true /\
  exists t, t ∈ pending (@app_init tmdb_nokey) /\ task_stream t = SearchStream.
Proof.
  split; [constructor |]. split; [reflexivity |].
  apply (@loading_implies_pending tmdb_nokey); [constructor | reflexivity].
Defined.

Lemma settle_all_clears_loading_witness :
  @reachable tmdb_nokey (@app_init tmdb_nokey) /\
  loading (stream_of SearchStream
    (run (@app_init tmdb_nokey)
       (map (fun t => Settle (task_id t) NetworkFailure) (pending (@app_init tmdb_nokey))))) = false.
Proof.
  split; [constructor |].
  apply (@settle_all_clears_loading tmdb_nokey _ (fun _ => NetworkFailure)). constructor.
Defined.

Lemma trending_requested_once_witness :
  @reachable tmdb_nokey (@app_init tmdb_nokey) /\
  length (of_stream TrendingStream (requests (@app_init tmdb_nokey))) = 1.
Proof.
  split; [constructor |]. apply (@trending_requested_once tmdb_nokey). constructor.
Defined.

Lemma settle_isolation_witness :
  take_task 0 (pending (@app_init tmdb_nokey)) =
    Some (mk_task 0 SearchStream (tmdb_url None DISCOVER_ENDPOINT),
          [mk_task 1 TrendingStream (tmdb_url None TRENDING_ENDPOINT)]) /\
  stream_of TrendingStream (@app_step tmdb_nokey (@app_init tmdb_nokey) (Settle 0 NetworkFailure)) =
    stream_of TrendingStream (@app_init tmdb_nokey).
Proof.
  split; [vm_compute; reflexivity |].
  apply (@settle_isolation tmdb_nokey _ 0 NetworkFailure
           (mk_task 0 SearchStream (tmdb_url None DISCOVER_ENDPOINT))
           [mk_task 1 TrendingStream (tmdb_url None TRENDING_ENDPOINT)] TrendingStream);
    [vm_compute; reflexivity | discriminate].
Defined.

(** Spec test 6: a 404 on the first search fetch. *)
Lemma settle_failure_witness :
  @settle_result tmdb_nokey (HttpResponse 404 None) = Err (JsError (str "Failed to fetch TMDB data")) /\
  stream_of SearchStream (@app_step tmdb_nokey (@app_init tmdb_nokey) (Settle 0 (HttpResponse 404 None))) =
    mk_stream (JArray []) (Some SEARCH_ERROR_MSG) false.
Proof.
  split; [vm_compute; reflexivity |].
  eapply proj1. apply (@settle_failure tmdb_nokey app_init 0 (HttpResponse 404 None)
           (mk_task 0 SearchStream (tmdb_url None DISCOVER_ENDPOINT))
           [mk_task 1 TrendingStream (tmdb_url None TRENDING_ENDPOINT)]);
    vm_compute; reflexivity.
Defined.

(** Spec test 7: a 200 response without a [results] field. *)
Lemma settle_success_witness :
  @settle_result tmdb_nokey (HttpResponse 200 (Some (JObject []))) = Ok (JArray []) /\
  stream_of SearchStream
    (@app_step tmdb_nokey (@app_init tmdb_nokey) (Settle 0 (HttpResponse 200 (Some (JObject []))))) =
    mk_stream (JArray []) (Some []) false.
Proof.
  split; [vm_compute; reflexivity |].
  eapply proj1. apply (@settle_success tmdb_nokey app_init 0 (HttpResponse 200 (Some (JObject [])))
           (mk_task 0 SearchStream (tmdb_url None DISCOVER_ENDPOINT))
           [mk_task 1 TrendingStream (tmdb_url None TRENDING_ENDPOINT)]);
    vm_compute; reflexivity.
Defined.

Lemma debounce_burst_witness :
  keys_change [] (map fst ([(str "a", 100)] ++ [(str "ab", 200)])) /\
  debouncedSearchTerm
    (@app_step tmdb_nokey (run (@app_init tmdb_nokey) (typing ([(str "a", 100)] ++ [(str "ab", 200)])))
       (Tick (DEBOUNCE_MS - 200))) = str "ab".
Proof.
  assert (Hk : keys_change [] (map fst ([(str "a", 100)] ++ [(str "ab", 200)])))
    by (simpl; split_and!; done).
  split; [exact Hk |].
  apply (@debounce_burst tmdb_nokey (@app_init tmdb_nokey) [(str "a", 100)] (str "ab") 200 Hk).
  repeat constructor; unfold DEBOUNCE_MS; simpl; lia.
Defined.
