(* ===== verification/Refinement.v ===== *)
(** * App.jsx against the FetchState contract

    [abs_stream] reads the three hooks of a stream the way the JSX does
    (App.jsx 97-101 and 126-129): the loading flag first, then a truthy
    error message, else the list; the [null] message of the first render is
    the contract's Idle.  [stream_events] lists the abstract events a step
    performs on one stream: a fetch begins when the debounced term changes
    (and is rejected at once when [encodeURIComponent] throws), and a fetch
    resolves or rejects when it settles.

    Refinement holds for sequential use, [seq_reachable]: the debounced term
    never changes while a search fetch is in flight.  Without that guard the
    code leaves the contract; the last theorem of the file says exactly
    where: at a late settle, a search response that arrives after another
    fetch's [finally] turned the spinner off. *)

From stdpp Require Import base list options sets.
From Stdlib Require Import ZArith Lia.
From Stdlib Require String.
Import String.StringSyntax.
From S2P Require Import Prelude JsValue UriEncode CatalogClient Debounce FetchState App.

Definition abs_stream (ss : stream_state) : fetch_state :=
  if loading ss then FLoading
  else match error_msg ss with
       | None => FIdle
       | Some [] => FSuccess (items ss)
       | Some m => FFailure m
       end.

Section Contract.
Context `{!Catalog}.

Definition stream_events (st : stream) (s : app_state) (e : event) : list fs_event :=
  match e with
  | KeyInput _ => []
  | Tick _ =>
      match st with
      | TrendingStream => []
      | SearchStream =>
          let d := debouncedSearchTerm (app_step s e) in
          if decide (d = debouncedSearchTerm s) then []
          else FsBegin :: match movies_endpoint d with
                          | Ok _ => []
                          | Err _ => [FsReject SEARCH_ERROR_MSG]
                          end
      end
  | Settle id o =>
      match take_task id (pending s) with
      | Some (t, _) =>
          if decide (task_stream t = st) then
            [match settle_result o with
             | Ok r => FsResolve r
             | Err _ => FsReject (error_message_of st)
             end]
          else []
      | None => []
      end
  end.

(** The debounced term changes only when no search fetch is in flight. *)
Definition seq_ok (s : app_state) (e : event) : Prop :=
  debouncedSearchTerm (app_step s e) <> debouncedSearchTerm s ->
  of_stream SearchStream (pending s) = [].

Inductive seq_reachable : app_state -> Prop :=
| seq_reachable_init : seq_reachable app_init
| seq_reachable_step s e : seq_reachable s -> seq_ok s e -> seq_reachable (app_step s e).

(** In sequential use each stream has at most one fetch in flight, it is
    loading exactly when it has one, and a loading stream has no error. *)
Definition seq_inv (s : app_state) : Prop :=
  forall st,
    length (of_stream st (pending s)) <= 1 /\
    (loading (stream_of st s) = true <-> 0 < length (of_stream st (pending s))) /\
    (loading (stream_of st s) = true -> error_msg (stream_of st s) = Some []).

End Contract.

(** ** The invariant of sequential use *)

Section SeqInv.
Context `{!Catalog}.

Lemma tick_cases s dt :
  (search (app_step s (Tick dt)) = search s /\ trending (app_step s (Tick dt)) = trending s /\
   pending (app_step s (Tick dt)) = pending s /\
   debouncedSearchTerm (app_step s (Tick dt)) = debouncedSearchTerm s) \/
  (searchTerm s <> debouncedSearchTerm s /\
   exists s0, app_step s (Tick dt) = fetchMovies (searchTerm s) s0 /\
     search s0 = search s /\ trending s0 = trending s /\ pending s0 = pending s /\
     debouncedSearchTerm s0 = searchTerm s).
Proof.
  simpl. unfold on_tick. destruct (debounce_due _ _); [| by left].
  unfold on_debounced. simpl. case_decide; [by left | right].
  split; [done |]. by eexists.
Qed.

Lemma input_streams v s st : stream_of st (app_step s (KeyInput v)) = stream_of st s.
Proof. simpl. unfold on_input. case_decide; by destruct st. Qed.

Lemma of_stream_take st id ts t rest :
  take_task id ts = Some (t, rest) ->
  length (of_stream st ts) = (if decide (task_stream t = st) then 1 else 0) + length (of_stream st rest).
Proof.
  intros (_ & Hp)%take_task_Some. unfold of_stream. rewrite Hp, filter_cons.
  by case_decide.
Qed.

Lemma seq_inv_ext s s' :
  search s' = search s -> trending s' = trending s -> pending s' = pending s ->
  seq_inv s -> seq_inv s'.
Proof.
  intros Hs Ht Hp Hinv st. destruct st; simpl; rewrite ?Hs, ?Ht, Hp;
    [apply (Hinv SearchStream) | apply (Hinv TrendingStream)].
Qed.

Lemma seq_inv_fetchMovies q s :
  seq_inv s -> of_stream SearchStream (pending s) = [] -> seq_inv (fetchMovies q s).
Proof.
  intros Hinv Hnone st. pose proof (Hinv st) as (Hle & Hload & Herr).
  unfold fetchMovies. destruct (movies_endpoint q); destruct st; simpl in *;
    rewrite ?of_stream_app, ?of_stream_task, ?Hnone in *; simpl in *;
    rewrite ?app_nil_r; (split; [lia | split; [| done]]); try done; lia.
Qed.

Lemma seq_inv_settle id o s : seq_inv s -> seq_inv (on_settle id o s).
Proof.
  intros Hinv st. unfold on_settle.
  destruct (take_task id (pending s)) as [[t rest]|] eqn:E; [| apply Hinv].
  pose proof (Hinv st) as (Hle & Hload & Herr). pose proof (of_stream_take st _ _ _ _ E) as Hlen.
  destruct (task_stream t) eqn:Ht, st; simpl in *; autorewrite with app_rw in *;
    repeat case_decide; simplify_eq; simpl in *.
  all: try (split_and!; [lia | split; [discriminate | lia] | discriminate]).
  all: rewrite Hlen in Hle, Hload; simpl in *; split_and!; done.
Qed.

Lemma seq_inv_step s e : seq_inv s -> seq_ok s e -> seq_inv (app_step s e).
Proof.
  intros Hinv Hok. destruct e as [v|dt|id o].
  - simpl. unfold on_input. case_decide; [done |]. by apply seq_inv_ext with s.
  - destruct (tick_cases s dt) as [(? & ? & ? & ?) | (Hne & s0 & Heq & ? & ? & Hp0 & ?)].
    + by apply seq_inv_ext with s.
    + rewrite Heq. apply seq_inv_fetchMovies; [by apply seq_inv_ext with s |].
      rewrite Hp0. apply Hok. rewrite Heq, fetchMovies_debounced. congruence.
  - apply seq_inv_settle, Hinv.
Qed.

Lemma seq_inv_init : seq_inv app_init.
Proof.
  intros st. unfold app_init, app_mount, loadTrendingMovies, fetchMovies.
  destruct (movies_endpoint _) eqn:E; [| discriminate].
  destruct st; simpl; unfold of_stream; rewrite ?filter_cons, ?filter_nil;
    repeat case_decide; simpl; split_and!; done || lia.
Qed.

Lemma seq_reachable_inv s : seq_reachable s -> seq_inv s.
Proof.
  induction 1; [apply seq_inv_init |]. by apply seq_inv_step.
Qed.

End SeqInv.

(** ** Refinement *)

Section Refines.
Context `{!Catalog}.

Lemma abs_loading ss : loading ss = true -> abs_stream ss = FLoading.
Proof. unfold abs_stream. by intros ->. Qed.

(** In sequential use, the stream of a settling fetch is loading and has
    no error message. *)
Lemma seq_settling_stream s id t rest :
  seq_inv s -> take_task id (pending s) = Some (t, rest) ->
  loading (stream_of (task_stream t) s) = true /\
  error_msg (stream_of (task_stream t) s) = Some [].
Proof.
  intros Hinv E. destruct (Hinv (task_stream t)) as (_ & Hload & Herr).
  pose proof (of_stream_take (task_stream t) _ _ _ _ E) as Hlen.
  rewrite decide_True in Hlen by done.
  assert (loading (stream_of (task_stream t) s) = true) by (apply Hload; lia).
  auto.
Qed.

(** C14. Refinement: in sequential use (the debounced term never changes
    while a search fetch is in flight), every step of App.jsx, read through
    [abs_stream], is a run of the FetchState contract: the events the step
    performs on a stream are transitions the contract allows, and they lead
    to the abstraction of the new state. *)
Theorem refines_fetch_state s e st :
  seq_reachable s -> seq_ok s e ->
  fs_run (abs_stream (stream_of st s)) (stream_events st s e) =
  Some (abs_stream (stream_of st (app_step s e))).
Proof.
  intros Hr Hok. pose proof (seq_reachable_inv s Hr) as Hinv.
  destruct e as [v|dt|id o].
  - by rewrite input_streams.
  - destruct (tick_cases s dt) as [(Hs & Ht & Hp & Hd) | (Hne & s0 & Heq & Hs & Ht & Hp & Hd)].
    + unfold stream_events. destruct st; simpl in *; rewrite ?Hd, ?decide_True by done;
        simpl; by rewrite ?Hs, ?Ht.
    + unfold stream_events. rewrite Heq, fetchMovies_debounced, Hd.
      destruct st; simpl; [| by rewrite fetchMovies_trending, Ht].
      rewrite decide_False by done. simpl.
      unfold fetchMovies. by destruct (movies_endpoint (searchTerm s)).
  - unfold stream_events. destruct (take_task id (pending s)) as [[t rest]|] eqn:E.
    + rewrite (on_settle_found _ _ _ _ _ E). case_decide as Hst.
      * subst st. destruct (seq_settling_stream _ _ _ _ Hinv E) as [Hl He].
        rewrite abs_loading by done.
        destruct (task_stream t); unfold fetchMovies_settle, loadTrendingMovies_settle;
          simpl in *; destruct (settle_result o); simpl; by rewrite ?He.
      * destruct (task_stream t), st; try congruence; by autorewrite with app_rw.
    + simpl. unfold on_settle. by rewrite E.
Qed.

End Refines.

(** ** Where the code leaves the contract: overlapping search fetches *)

Definition ok_results (xs : list jsval) : fetch_outcome :=
  HttpResponse 200 (Some (JObject [(str "results", JArray xs)])).

(** A response that settles a search fetch after the spinner of the
    search stream was already turned off: by the [finally] of another,
    overlapping fetch. *)
Definition late_settle `{!Catalog} (s : app_state) (e : event) : bool :=
  match e with
  | Settle id _ =>
      match take_task id (pending s) with
      | Some (t, _) => bool_decide (task_stream t = SearchStream) && negb (loading (search s))
      | None => false
      end
  | _ => false
  end.

Section Overlap.
Context `{!Catalog}.

(** Every spinner that is on shows no error: [fetchMovies] and
    [loadTrendingMovies] clear the message when they turn it on, and only
    a [finally] turns it off.  This needs no sequential use. *)
Definition clean_loading (s : app_state) : Prop :=
  forall st, loading (stream_of st s) = true -> error_msg (stream_of st s) = Some [].

Lemma clean_loading_fetchMovies q s : clean_loading s -> clean_loading (fetchMovies q s).
Proof.
  intros Hs [|]; [| rewrite fetchMovies_trending; apply (Hs TrendingStream)].
  unfold fetchMovies. by case_res.
Qed.

Lemma clean_loading_step s e : clean_loading s -> clean_loading (app_step s e).
Proof.
  intros Hs. destruct e as [v|dt|id o].
  - intros st. rewrite input_streams. apply Hs.
  - destruct (tick_cases s dt) as [(H1 & H2 & _) | (_ & s0 & -> & H1 & H2 & _)].
    + intros [|]; cbn [stream_of]; [rewrite H1; apply (Hs SearchStream) | rewrite H2; apply (Hs TrendingStream)].
    + apply clean_loading_fetchMovies.
      intros [|]; cbn [stream_of]; [rewrite H1; apply (Hs SearchStream) | rewrite H2; apply (Hs TrendingStream)].
  - simpl. unfold on_settle. destruct (take_task id (pending s)) as [[t rest]|]; [| done].
    assert (clean_loading (set_pending rest s)) as Hs1 by exact Hs.
    intros st. destruct (task_stream t), st; unfold fetchMovies_settle, loadTrendingMovies_settle;
      case_res; simpl; try done; first [apply (Hs1 SearchStream) | apply (Hs1 TrendingStream)].
Qed.

Lemma clean_loading_init : clean_loading app_init.
Proof.
  unfold app_init, app_mount, loadTrendingMovies, fetchMovies.
  intros [|]; simpl; case_res; simpl; done.
Qed.

Lemma reachable_clean_loading s : reachable s -> clean_loading s.
Proof. induction 1; [apply clean_loading_init | by apply clean_loading_step]. Qed.

(** A tick is always a run of the contract on the search stream: a fetch
    may begin in any state. *)
Lemma search_tick_refines s dt :
  fs_run (abs_stream (search s)) (stream_events SearchStream s (Tick dt)) =
  Some (abs_stream (search (app_step s (Tick dt)))).
Proof.
  unfold stream_events.
  destruct (tick_cases s dt) as [(Hs & _ & _ & Hd) | (Hne & s0 & Heq & _ & _ & _ & Hd)].
  - rewrite Hd, decide_True by done. by rewrite Hs.
  - rewrite Heq, fetchMovies_debounced, Hd, decide_False by done.
    unfold fetchMovies. by destruct (movies_endpoint (searchTerm s)).
Qed.

(** C15. Where the search stream leaves the contract, with overlapping
    fetches allowed: in every reachable state, a step is a run of the
    FetchState contract on the search stream, leading to the abstraction
    of its new state, unless it is a late settle (a search response that
    arrives after the [finally] of another fetch turned the spinner off);
    and the contract rejects every late settle: a stream that already
    succeeded or failed cannot resolve or reject again.  Late settles are
    what the code does when a search fetch overtakes an older one. *)
Theorem search_refines_unless_late s e :
  reachable s ->
  (late_settle s e = false ->
   fs_run (abs_stream (search s)) (stream_events SearchStream s e) =
   Some (abs_stream (search (app_step s e)))) /\
  (late_settle s e = true -> fs_run (abs_stream (search s)) (stream_events SearchStream s e) = None).
Proof.
  intros Hr. pose proof (reachable_clean_loading s Hr SearchStream) as Hclean.
  cbn [stream_of] in Hclean.
  destruct e as [v|dt|id o]; cbn [late_settle]; split; try discriminate.
  - intros _. simpl. by rewrite (input_streams v s SearchStream).
  - intros _. apply search_tick_refines.
  - unfold stream_events. destruct (take_task id (pending s)) as [[t rest]|] eqn:E; [| intros _].
    + rewrite (on_settle_found _ _ _ _ _ E). case_bool_decide as Hst; [rewrite Hst | intros _].
      * destruct (loading (search s)) eqn:Hl; [intros _ | done].
        rewrite abs_loading by done. unfold fetchMovies_settle. simpl.
        rewrite (Hclean eq_refl). by destruct (settle_result o).
      * rewrite decide_False by done. destruct (task_stream t); [done |].
        by autorewrite with app_rw.
    + simpl. unfold on_settle. by rewrite E.
  - unfold stream_events. destruct (take_task id (pending s)) as [[t rest]|]; [| done].
    intros [Hst Hl%negb_true_iff]%andb_prop. apply bool_decide_eq_true in Hst.
    rewrite decide_True by done. unfold abs_stream. rewrite Hl.
    destruct (error_msg _) as [[|]|], (settle_result o); done.
Qed.

End Overlap.

(** ** Witnesses *)

#[local] Existing Instance tmdb_nokey.

Lemma refines_fetch_state_witness :
  seq_reachable app_init /\
  fs_run (abs_stream (stream_of SearchStream app_init))
         (stream_events SearchStream app_init (Settle 0 (ok_results [JNumber 1]))) =
  Some (abs_stream (stream_of SearchStream (app_step app_init (Settle 0 (ok_results [JNumber 1]))))).
Proof.
  split; [constructor |].
  apply refines_fetch_state; [constructor |].
  intros Hne. exfalso. apply Hne. reflexivity.
Defined.

(** The user types "a", then "ab" once the search for "a" is in flight;
    the search for "ab" answers first, then the one for "a": a late
    settle, which the contract rejects, and which puts the results for
    "a" on screen under the query "ab". *)
Lemma search_refines_unless_late_witness :
  let s := run app_init
             [Settle 0 (ok_results []); KeyInput (str "a"); Tick 700;
              KeyInput (str "ab"); Tick 700; Settle 3 (ok_results [JNumber 2])] in
  let e := Settle 2 (ok_results [JNumber 1]) in
  reachable s /\ late_settle s e = true /\
  fs_run (abs_stream (search s)) (stream_events SearchStream s e) = None /\
  debouncedSearchTerm (app_step s e) = str "ab" /\ items (search (app_step s e)) = JArray [JNumber 1].
Proof.
  intros s e. assert (reachable s) as Hr by (apply reachable_run; constructor).
  assert (late_settle s e = true) as Hl by reflexivity.
  split_and!; [exact Hr | exact Hl | exact (proj2 (search_refines_unless_late s e Hr) Hl) | reflexivity ..].
Defined.
