(* ===== verification/TrendingContract.v ===== *)
(** * TrendingContract: the trending stream keeps the FetchState contract

    [Refinement.refines_fetch_state] needs sequential use because two
    search fetches may overlap.  The trending fetch is issued once, at
    mount ([App.loadTrendingMovies] in [App.app_mount]), so its stream
    never has two fetches in flight.  This file proves the invariant of
    the trending stream in every reachable state and, from it, that every
    step of App, read through [abs_stream], is a run of the contract on
    the trending stream, with no assumption on the user or the network:
    the races of the search stream cannot reach the trending one. *)

From stdpp Require Import base list options.
From Stdlib Require Import Lia.
From Stdlib Require String.
Import String.StringSyntax.
From S2P Require Import Prelude JsValue CatalogClient Debounce App FetchState Refinement.

Section Trending.
Context `{!Catalog}.

Definition trending_in_flight (s : app_state) : nat := length (of_stream TrendingStream (pending s)).

(** At most one trending fetch in flight; the spinner is on exactly while
    it is; a loading trending stream shows no error. *)
Definition trending_inv (s : app_state) : Prop :=
  trending_in_flight s <= 1 /\
  (loading (trending s) = true <-> 0 < trending_in_flight s) /\
  (loading (trending s) = true -> error_msg (trending s) = Some []).

Lemma trending_inv_ext s s' :
  trending s' = trending s -> trending_in_flight s' = trending_in_flight s ->
  trending_inv s -> trending_inv s'.
Proof. unfold trending_inv. by intros -> ->. Qed.

Lemma fetchMovies_trending_in_flight q s : trending_in_flight (fetchMovies q s) = trending_in_flight s.
Proof.
  unfold trending_in_flight, fetchMovies. destruct (movies_endpoint q); simpl; [| done].
  by rewrite of_stream_app, of_stream_task, decide_False, app_nil_r.
Qed.

Lemma trending_inv_fetchMovies q s : trending_inv s -> trending_inv (fetchMovies q s).
Proof. apply trending_inv_ext; [apply fetchMovies_trending | apply fetchMovies_trending_in_flight]. Qed.

Lemma trending_inv_tick dt s : trending_inv s -> trending_inv (app_step s (Tick dt)).
Proof.
  intros Hinv. destruct (tick_cases s dt) as [(_ & Ht & Hp & _) | (_ & s0 & -> & _ & Ht & Hp & _)].
  - apply (trending_inv_ext s); [done | unfold trending_in_flight; by rewrite Hp | done].
  - apply trending_inv_fetchMovies.
    apply (trending_inv_ext s); [done | unfold trending_in_flight; by rewrite Hp | done].
Qed.

Lemma trending_inv_settle id o s : trending_inv s -> trending_inv (app_step s (Settle id o)).
Proof.
  intros (Hle & Hload & Herr). simpl. unfold on_settle.
  destruct (take_task id (pending s)) as [[t rest]|] eqn:E; [| done].
  pose proof (of_stream_take TrendingStream _ _ _ _ E) as Hlen.
  unfold trending_inv, trending_in_flight in *. rewrite Hlen in Hle, Hload.
  destruct (task_stream t); simpl in *;
    rewrite ?fetchMovies_settle_trending, ?fetchMovies_settle_pending,
      ?loadTrendingMovies_settle_pending; simpl.
  - split_and!; [lia | | done]. rewrite Hload. lia.
  - unfold loadTrendingMovies_settle. case_res; simpl; split_and!; try lia; try done.
Qed.

Lemma trending_inv_step s e : trending_inv s -> trending_inv (app_step s e).
Proof.
  intros Hinv. destruct e as [v|dt|id o].
  - apply (trending_inv_ext s); [apply (input_streams v s TrendingStream) | | done].
    unfold trending_in_flight. simpl. unfold on_input. by case_decide.
  - by apply trending_inv_tick.
  - by apply trending_inv_settle.
Qed.

Lemma trending_inv_init : trending_inv app_init.
Proof.
  unfold app_init, app_mount, loadTrendingMovies, fetchMovies, trending_inv, trending_in_flight.
  destruct (movies_endpoint _); simpl; unfold of_stream; rewrite ?filter_cons, ?filter_nil;
    repeat case_decide; simpl; split_and!; done || lia.
Qed.

Lemma reachable_trending_inv s : reachable s -> trending_inv s.
Proof. induction 1; [apply trending_inv_init | by apply trending_inv_step]. Qed.

(** C30. The trending stream refines the FetchState contract in every
    reachable state and on every step, with no assumption on the order of
    keystrokes, ticks or responses: the events a step performs on the
    trending stream are transitions the contract allows and lead to the
    abstraction of its new state.  The reason is [trending_inv]: at most
    one trending fetch is ever in flight. *)
Theorem trending_refines_unconditionally s e :
  reachable s ->
  trending_inv s /\
  fs_run (abs_stream (trending s)) (stream_events TrendingStream s e) =
  Some (abs_stream (trending (app_step s e))).
Proof.
  intros Hr. pose proof (reachable_trending_inv s Hr) as Hinv.
  split; [exact Hinv |]. destruct Hinv as (Hle & Hload & Herr).
  destruct e as [v|dt|id o].
  - simpl. by rewrite (input_streams v s TrendingStream).
  - destruct (tick_cases s dt) as [(_ & Ht & _) | (_ & s0 & Heq & _ & Ht & _)];
      simpl stream_events; rewrite ?Heq, ?fetchMovies_trending, Ht; done.
  - unfold stream_events. destruct (take_task id (pending s)) as [[t rest]|] eqn:E.
    + rewrite (on_settle_found _ _ _ _ _ E). case_decide as Hst.
      * rewrite Hst. pose proof (of_stream_take TrendingStream _ _ _ _ E) as Hlen.
        rewrite decide_True in Hlen by done. unfold trending_in_flight in *.
        assert (loading (trending s) = true) as Hl by (apply Hload; lia).
        rewrite abs_loading by done. unfold loadTrendingMovies_settle. simpl.
        rewrite (Herr Hl). by destruct (settle_result o).
      * destruct (task_stream t); [| done]. by rewrite fetchMovies_settle_trending.
    + simpl. unfold on_settle. by rewrite E.
Qed.

End Trending.

(** ** Witnesses *)

#[local] Existing Instance tmdb_nokey.

Lemma trending_refines_unconditionally_witness :
  let s := run app_init [KeyInput (str "a"); Tick 700; Settle 0 NetworkFailure] in
  reachable s /\ trending_inv s /\
  fs_run (abs_stream (trending s)) (stream_events TrendingStream s (Settle 1 (ok_results []))) =
  Some (abs_stream (trending (app_step s (Settle 1 (ok_results []))))).
Proof.
  intros s. assert (reachable s) as Hr by (apply reachable_run; constructor).
  split; [exact Hr | exact (trending_refines_unconditionally s (Settle 1 (ok_results [])) Hr)].
Defined.
