(* ===== verification/View.v ===== *)
(** * View: the JSX of App.jsx (lines 80-141)

    The render is a function of the state: the search input bound to
    [searchTerm] (the [Search] component), the trending section
    (App.jsx 94-120) and the all-movies section (App.jsx 123-137).  Each
    section is one of the nodes of [section]: the [Spinner], the red error
    paragraph, a plain paragraph, the trending list or the list of
    [MovieCard]s.  The components [Search], [Spinner] and [MovieCard] are
    not under src/: a [MovieCard] is recorded by its two props.

    The render is JavaScript evaluated on whatever the server sent:
    [trendingMovies.length > 0], [.slice(0, 5)], [.map(..)] and [movie.id]
    throw a TypeError on values that are not what they expect, and an
    exception in the render unmounts the whole application.  [render]
    therefore returns a [result].  The comparison [v > 0] on a string or
    an object goes through ToPrimitive and ToNumber, which are not
    modelled: it is the section variable [gt_zero_prim]. *)

From stdpp Require Import base list options.
From Stdlib Require Import ZArith Lia.
From Stdlib Require String.
Import String.StringSyntax.
From S2P Require Import Prelude JsValue UriEncode CatalogClient Debounce App.

(** ** The rendered page *)

(** [src] of the poster: [`https://image.tmdb.org/t/p/w200${movie.poster_path}`]
    or the placeholder ["No-Poster.png"]. *)
Inductive img_src :=
| PosterUrl (poster_path : jsval)
| NoPoster.

(** [<li key={movie.id}><p>{index + 1}</p><img src=.. alt={movie.title} /></li>] *)
Record trending_entry := mk_entry {
  entry_key : jsval;
  entry_rank : Z;
  entry_src : img_src;
  entry_alt : jsval
}.

Inductive section :=
| SSpinner
| SError (msg : jsstr)
| SNote (text : jsstr)
| STrending (entries : list trending_entry)
| SCards (cards : list (jsval * jsval)).

Record page := mk_page {
  search_value : jsstr;
  trending_section : section;
  movies_section : section
}.

Definition NO_TRENDING_TEXT : jsstr := str "No trending movies found.".

(** [{errorMessage}] is rendered when the state holds a truthy value:
    [null] and [""] are falsy. *)
Definition shown_error (m : option jsstr) : option jsstr :=
  match m with
  | Some msg => if truthy (JString msg) then Some msg else None
  | None => None
  end.

Section Render.
Variable gt_zero_prim : jsval -> bool.

(** [v > 0] *)
Definition js_gt_zero (v : jsval) : bool :=
  match v with
  | JUndefined | JNull => false
  | JBool b => b
  | JNumber n => (0 <? n)%Z
  | JString _ | JArray _ | JObject _ => gt_zero_prim v
  end.

(** [v.slice(0, 5)]: an array or a string; on anything else [slice] is not
    a function. *)
Definition slice_0_5 (v : jsval) : result js_error jsval :=
  match v with
  | JArray xs => Ok (JArray (take 5 xs))
  | JString s => Ok (JString (take 5 s))
  | _ => Err JsTypeError
  end.

(** The receiver of [.map]: only an array has it. *)
Definition map_receiver (v : jsval) : result js_error (list jsval) :=
  match v with
  | JArray xs => Ok xs
  | _ => Err JsTypeError
  end.

Definition poster_src (poster_path : jsval) : img_src :=
  if truthy poster_path then PosterUrl poster_path else NoPoster.

(** The callback of [trendingMovies.slice(0, 5).map((movie, index) => ..)]. *)
Definition trending_entry_of (index : nat) (movie : jsval) : result js_error trending_entry :=
  id <- get_prop movie (str "id") ;;
  pp <- get_prop movie (str "poster_path") ;;
  title <- get_prop movie (str "title") ;;
  Ok (mk_entry id (Z.of_nat index + 1) (poster_src pp) title).

Definition render_trending_list (trendingMovies : jsval) : result js_error section :=
  len <- get_prop trendingMovies (str "length") ;;
  if js_gt_zero len then
    top <- slice_0_5 trendingMovies ;;
    movies <- map_receiver top ;;
    entries <- res_mapi trending_entry_of 0 movies ;;
    Ok (STrending entries)
  else Ok (SNote NO_TRENDING_TEXT).

(** App.jsx 97-119 *)
Definition render_trending (ts : stream_state) : result js_error section :=
  if loading ts then Ok SSpinner
  else match shown_error (error_msg ts) with
       | Some msg => Ok (SError msg)
       | None => render_trending_list (items ts)
       end.

(** [<MovieCard key={movie.id} movie={movie} />] *)
Definition movie_card_of (index : nat) (movie : jsval) : result js_error (jsval * jsval) :=
  id <- get_prop movie (str "id") ;; Ok (id, movie).

(** App.jsx 126-136 *)
Definition render_movies (ss : stream_state) : result js_error section :=
  if loading ss then Ok SSpinner
  else match shown_error (error_msg ss) with
       | Some msg => Ok (SError msg)
       | None =>
           movies <- map_receiver (items ss) ;;
           cards <- res_mapi movie_card_of 0 movies ;;
           Ok (SCards cards)
       end.

(** App.jsx 80-141: the children are evaluated in document order. *)
Definition render (s : app_state) : result js_error page :=
  t <- render_trending (trending s) ;;
  m <- render_movies (search s) ;;
  Ok (mk_page (searchTerm s) t m).

End Render.

(** ** Well-formed responses

    The spec's responses: a [results] array of movie objects.  A stream's
    list is well formed when it is an array of objects; a fetch outcome
    when what [fetchMovies] or [loadTrendingMovies] would store from it is
    a well-formed list (or it throws). *)

Definition movie_obj (v : jsval) : bool :=
  match v with
  | JObject _ => true
  | _ => false
  end.

Definition movies_ok (v : jsval) : bool :=
  match v with
  | JArray xs => forallb movie_obj xs
  | _ => false
  end.

Section WellFormed.
Context `{!Catalog}.

Definition outcome_ok (o : fetch_outcome) : bool :=
  match settle_result o with
  | Ok r => movies_ok r
  | Err _ => true
  end.

Definition event_ok (e : event) : bool :=
  match e with
  | Settle _ o => outcome_ok o
  | _ => true
  end.

End WellFormed.

Definition view_inv (s : app_state) : Prop :=
  movies_ok (items (search s)) = true /\ movies_ok (items (trending s)) = true.

(** ** The sections *)

Section Sections.
Variable gt_zero_prim : jsval -> bool.

Lemma trending_entry_of_rank i m e :
  trending_entry_of i m = Ok e -> entry_rank e = (Z.of_nat i + 1)%Z.
Proof. unfold trending_entry_of. intros H. res_inv H. by simplify_eq. Qed.

Lemma trending_entry_of_obj i m : movie_obj m = true -> exists e, trending_entry_of i m = Ok e.
Proof. destruct m; try done. intros _. by eexists. Qed.

Lemma movie_card_of_obj i m : movie_obj m = true -> exists c, movie_card_of i m = Ok c.
Proof. destruct m; try done. intros _. by eexists. Qed.

Lemma forallb_movie_obj xs m : forallb movie_obj xs = true -> m ∈ xs -> movie_obj m = true.
Proof. rewrite forallb_forall. intros H Hm. apply H. by apply list_elem_of_In. Qed.

(** The list branch of the trending section, on the shape of the value. *)
Lemma render_trending_list_Ok v sec :
  render_trending_list gt_zero_prim v = Ok sec ->
  sec = SNote NO_TRENDING_TEXT \/
  exists xs es, v = JArray xs /\ xs <> [] /\ sec = STrending es /\
    res_mapi trending_entry_of 0 (take 5 xs) = Ok es.
Proof.
  unfold render_trending_list. intros H. res_inv H.
  destruct (js_gt_zero _ _) eqn:Hgt; [| simplify_eq; by left].
  res_inv H. simplify_eq. right.
  destruct v as [| | | | |xs|]; simplify_eq/=.
  exists xs, x2. split_and!; try done.
  intros ->. discriminate.
Qed.

Lemma render_trending_list_ok v :
  movies_ok v = true -> exists sec, render_trending_list gt_zero_prim v = Ok sec.
Proof.
  destruct v as [| | | | |xs|]; try done. intros Hxs.
  unfold render_trending_list. simpl.
  destruct (0 <? _)%Z; simpl; [| by eexists].
  destruct (res_mapi_exists trending_entry_of 0 (take 5 xs)) as [es ->]; [| by eexists].
  intros j m Hm. apply trending_entry_of_obj, (forallb_movie_obj xs); [done |].
  by apply (subseteq_take 5).
Qed.

Lemma render_movies_ok ss :
  movies_ok (items ss) = true -> exists sec, render_movies ss = Ok sec.
Proof.
  unfold render_movies. destruct (loading ss); [by eexists |].
  destruct (shown_error _); [by eexists |].
  destruct (items ss) as [| | | | |xs|]; try done. intros Hxs. simpl.
  destruct (res_mapi_exists movie_card_of 0 xs) as [cs ->]; [| by eexists].
  intros j m Hm. by apply movie_card_of_obj, (forallb_movie_obj xs).
Qed.

Lemma render_ok s : view_inv s -> exists p, render gt_zero_prim s = Ok p.
Proof.
  intros [Hs Ht]. unfold render, render_trending.
  destruct (render_movies_ok _ Hs) as [m ->].
  destruct (loading _); [simpl; by eexists |].
  destruct (shown_error _); [simpl; by eexists |].
  destruct (render_trending_list_ok _ Ht) as [t ->]. simpl. by eexists.
Qed.

End Sections.

(** ** Safety of the render on well-formed responses *)

Section Safety.
Context `{!Catalog}.

Lemma view_inv_fetchMovies q s : view_inv s -> view_inv (fetchMovies q s).
Proof. unfold fetchMovies. by destruct (movies_endpoint q). Qed.

Lemma view_inv_loadTrending s : view_inv s -> view_inv (loadTrendingMovies s).
Proof. done. Qed.

Lemma view_inv_tick dt s : view_inv s -> view_inv (on_tick dt s).
Proof.
  unfold on_tick, on_debounced. intros Hs.
  repeat case_decide; case_match; try done; by apply view_inv_fetchMovies.
Qed.

Lemma view_inv_settle id o s : outcome_ok o = true -> view_inv s -> view_inv (on_settle id o s).
Proof.
  unfold on_settle, outcome_ok, fetchMovies_settle, loadTrendingMovies_settle.
  intros Ho [Hs Ht]. destruct (take_task id (pending s)) as [[t rest]|]; [| done].
  destruct (task_stream t), (settle_result o); split; done.
Qed.

Lemma view_inv_step s e : event_ok e = true -> view_inv s -> view_inv (app_step s e).
Proof.
  destruct e; simpl; intros He Hs.
  - unfold on_input. by case_decide.
  - by apply view_inv_tick.
  - by apply view_inv_settle.
Qed.

Lemma view_inv_init : view_inv app_init.
Proof. unfold app_init, app_mount. by apply view_inv_loadTrending, view_inv_fetchMovies. Qed.

Lemma view_inv_run s evs : forallb event_ok evs = true -> view_inv s -> view_inv (run s evs).
Proof.
  revert s. induction evs as [|e evs IH]; intros s; simpl; [done |].
  intros [He Hevs]%andb_prop Hs. apply IH; [done |]. by apply view_inv_step.
Qed.

End Safety.

(** ** What the page shows *)

Section Page.
Variable gt_zero_prim : jsval -> bool.

(** C6. The render never throws as long as every response the network
    delivers carries a [results] array of movie objects (or makes the
    fetch fail): from the first commit, through any interleaving of
    keystrokes, timer ticks and responses, [render] returns a page. *)
Theorem render_safe `{!Catalog} evs :
  forallb event_ok evs = true -> exists p, render gt_zero_prim (run app_init evs) = Ok p.
Proof.
  intros Hevs. apply render_ok, view_inv_run; [done |]. apply view_inv_init.
Qed.

Lemma trending_entry_of_poster i m e :
  trending_entry_of i m = Ok e ->
  exists pp, get_prop m (str "poster_path") = Ok pp /\
    (truthy pp = false -> entry_src e = NoPoster) /\
    (truthy pp = true -> entry_src e = PosterUrl pp).
Proof.
  unfold trending_entry_of. intros H. res_inv H. simplify_eq.
  eexists. split; [done |]. unfold poster_src. split; intros ->; done.
Qed.

(** C19. The trending section shows at most five movies, ranked 1, 2, ..
    in the order of the list ([slice(0, 5)] and the [index + 1] of the
    callback), whatever value the state holds. *)
Theorem trending_top5 v es :
  render_trending_list gt_zero_prim v = Ok (STrending es) ->
  length es <= 5 /\ map entry_rank es = map (fun j => Z.of_nat j + 1)%Z (seq 0 (length es)).
Proof.
  intros [? | (xs & es' & -> & _ & [= <-] & Hes)]%render_trending_list_Ok; [done |].
  pose proof (res_mapi_length _ _ _ _ Hes) as Hlen. rewrite length_take in Hlen.
  split; [lia |]. rewrite Hlen, <- length_take.
  exact (res_mapi_proj _ entry_rank _ _ _ _ trending_entry_of_rank Hes).
Qed.

(** C20. Poster fallback (spec, test 5): the i-th entry of the trending
    list is the i-th movie of the list; its image is the placeholder
    exactly when the movie's [poster_path] is falsy ([null], absent or
    [""]), and the poster URL of [poster_path] otherwise. *)
Theorem trending_poster_fallback v es :
  render_trending_list gt_zero_prim v = Ok (STrending es) ->
  exists xs, v = JArray xs /\
    Forall2 (fun movie e => exists pp,
               get_prop movie (str "poster_path") = Ok pp /\
               (truthy pp = false -> entry_src e = NoPoster) /\
               (truthy pp = true -> entry_src e = PosterUrl pp))
            (take 5 xs) es.
Proof.
  intros [? | (xs & es' & -> & _ & [= <-] & Hes)]%render_trending_list_Ok; [done |].
  exists xs. split; [done |].
  eapply res_mapi_Forall2; [exact trending_entry_of_poster | exact Hes].
Qed.

Lemma movie_card_of_Err i m e : movie_card_of i m = Err e <-> nullish m = true /\ e = JsTypeError.
Proof.
  unfold movie_card_of. rewrite <- (get_prop_Err m (str "id")).
  destruct (get_prop m (str "id")); cbn [res_bind]; split; intros; congruence.
Qed.

Lemma movie_cards_Err i xs e :
  res_mapi movie_card_of i xs = Err e <-> Exists (fun m => nullish m = true) xs /\ e = JsTypeError.
Proof.
  revert i. induction xs as [|m xs IH]; intros i; cbn [res_mapi].
  { split; [discriminate | by intros [?%Exists_nil _]]. }
  destruct (nullish m) eqn:Hn.
  - rewrite (proj2 (movie_card_of_Err i m JsTypeError)) by done. cbn [res_bind].
    split; [intros [= <-]; split; [by apply Exists_cons; left | done] | by intros [_ ->]].
  - destruct (movie_card_of i m) as [c|e'] eqn:Ec; [| apply movie_card_of_Err in Ec as [? _]; congruence].
    cbn [res_bind]. rewrite res_bind_Err, IH. split.
    + intros [[Hx ->] | (ys & _ & [=])]. split; [by apply Exists_cons; right | done].
    + intros [[?|Hx]%Exists_cons ->]; [congruence | by left].
Qed.

(** C21. When the list of movies throws: the all-movies section (App.jsx
    126-136) throws exactly when no spinner and no error message is shown
    and the stored list is not an array or holds [null] or [undefined]
    ([movie.id] of the [key]), and what it throws is a TypeError; it never
    throws while loading or showing an error. *)
Theorem render_movies_error_iff ss e :
  render_movies ss = Err e <->
  e = JsTypeError /\ loading ss = false /\ shown_error (error_msg ss) = None /\
  (forall xs, items ss = JArray xs -> Exists (fun m => nullish m = true) xs).
Proof.
  unfold render_movies. destruct (loading ss); [split; [discriminate | by intros (_ & ? & _)] |].
  destruct (shown_error (error_msg ss)); [split; [discriminate | by intros (_ & _ & ? & _)] |].
  destruct (items ss) as [| | | | |xs|]; simpl;
    try (split; [intros [= <-]; split_and!; done | by intros [-> _]]).
  destruct (res_mapi movie_card_of 0 xs) eqn:E; simpl.
  - split; [discriminate |]. intros (-> & _ & _ & Hx).
    by rewrite (proj2 (movie_cards_Err 0 xs JsTypeError) (conj (Hx xs eq_refl) eq_refl)) in E.
  - apply movie_cards_Err in E as [Hx ->]. split; [intros [= <-] | intros [-> _]]; [| done].
    split_and!; [done .. |]. by intros ? [= <-].
Qed.

End Page.

(** ** Traces through the whole component *)

(** A movie object as the server sends it. *)
Definition sample_movie (id : nat) (poster_path : jsval) : jsval :=
  JObject [(str "id", JNumber (Z.of_nat id)); (str "title", JString (str "A"));
           (str "poster_path", poster_path)].

Definition sample_page (results : jsval) : fetch_outcome :=
  HttpResponse 200 (Some (JObject [(str "results", results)])).

(** ** Witnesses *)

#[local] Existing Instance tmdb_nokey.

Lemma render_safe_witness :
  forallb event_ok [Settle 1 (sample_page (JArray [sample_movie 1 JNull])); Settle 0 NetworkFailure] = true /\
  exists p, render (fun _ => false)
              (run app_init [Settle 1 (sample_page (JArray [sample_movie 1 JNull])); Settle 0 NetworkFailure]) = Ok p.
Proof. split; [reflexivity | apply render_safe; reflexivity]. Defined.

Definition seven_movies : jsval :=
  JArray (map (fun n => sample_movie n (JString (str "/p.jpg"))) (seq 1 7)).

Definition entries_of (r : result js_error section) : list trending_entry :=
  match r with
  | Ok (STrending es) => es
  | _ => []
  end.

Lemma trending_top5_witness :
  let es := entries_of (render_trending_list (fun _ => false) seven_movies) in
  render_trending_list (fun _ => false) seven_movies = Ok (STrending es) /\
  length es <= 5 /\ map entry_rank es = map (fun j => Z.of_nat j + 1)%Z (seq 0 (length es)).
Proof.
  intros es. split; [vm_compute; reflexivity |].
  apply (trending_top5 (fun _ => false) seven_movies). vm_compute. reflexivity.
Defined.

(** The spec's test 5: [{results: [{id: 1, title: "A", poster_path: null}]}]. *)
Lemma trending_poster_fallback_witness :
  let v := JArray [sample_movie 1 JNull] in
  render_trending_list (fun _ => false) v = Ok (STrending [mk_entry (JNumber 1) 1 NoPoster (JString (str "A"))]) /\
  exists xs, v = JArray xs /\
    Forall2 (fun movie e => exists pp,
               get_prop movie (str "poster_path") = Ok pp /\
               (truthy pp = false -> entry_src e = NoPoster) /\
               (truthy pp = true -> entry_src e = PosterUrl pp))
            (take 5 xs) [mk_entry (JNumber 1) 1 NoPoster (JString (str "A"))].
Proof.
  intros v. split; [reflexivity |].
  apply (trending_poster_fallback (fun _ => false)). reflexivity.
Defined.
