(* ===== verification/Pending.v ===== *)
(** * Pending: the bookkeeping of the fetches in flight

    Every call to [fetch] inside [fetchTMDB] is a [task] of the model
    ([App.issue_fetch]): it gets the next identifier, is logged in
    [requests] and stays in [pending] until its continuation runs
    ([App.on_settle]).  This file proves that without keystrokes the
    event loop runs out of work: the fetches in flight and the debounce
    timer bound the number of steps that still do something. *)

From stdpp Require Import base list options.
From Stdlib Require Import Lia.
From Stdlib Require String.
Import String.StringSyntax.
From S2P Require Import Prelude JsValue CatalogClient Debounce App.

Section Pending.
Context `{!Catalog}.

(** The updates that leave the bookkeeping of fetches alone. *)
Definition same_fetches (s s' : app_state) : Prop :=
  pending s' = pending s /\ requests s' = requests s /\ next_id s' = next_id s.

Lemma same_fetches_settle_continuation o s :
  same_fetches s (fetchMovies_settle o s) /\ same_fetches s (loadTrendingMovies_settle o s).
Proof. unfold fetchMovies_settle, loadTrendingMovies_settle. by case_res. Qed.

(** ** The event loop runs out of work

    Without keystrokes, the only events that change anything are the
    response to a fetch in flight and the debounce timeout firing.  The
    first removes a fetch from [pending]; the second clears the timer and
    issues at most one fetch.  The timer counts for two fetches. *)

Definition timer_work (t : timer) : nat :=
  match t with
  | Some _ => 2
  | None => 0
  end.

Definition work (s : app_state) : nat := length (pending s) + timer_work (debounce_timer s).

(** A step that does something without the user. *)
Definition internal_event (s : app_state) (e : event) : bool :=
  match e with
  | KeyInput _ => false
  | Tick dt => debounce_due (debounce_timer s) (clock s + dt)
  | Settle id _ => bool_decide (id ∈ map task_id (pending s))
  end.

(** A sequence of events each of which does something. *)
Fixpoint internal_trace (s : app_state) (evs : list event) : bool :=
  match evs with
  | [] => true
  | e :: evs' => internal_event s e && internal_trace (app_step s e) evs'
  end.

Lemma take_task_found id ts :
  id ∈ map task_id ts -> exists t rest, take_task id ts = Some (t, rest).
Proof.
  induction ts as [|t ts IH]; simpl; [by intros ?%elem_of_nil |].
  intros Hin. case_decide; [by eauto |].
  destruct IH as (t' & rest & ->); [| simpl; eauto].
  apply elem_of_cons in Hin as [->|]; [done | done].
Qed.

Lemma fetchMovies_work q s :
  length (pending (fetchMovies q s)) <= S (length (pending s)) /\
  debounce_timer (fetchMovies q s) = debounce_timer s.
Proof. unfold fetchMovies. case_res; simpl; rewrite ?length_app; simpl; split; [lia | done | lia | done]. Qed.

Lemma settle_continuation_timer o s :
  debounce_timer (fetchMovies_settle o s) = debounce_timer s /\
  debounce_timer (loadTrendingMovies_settle o s) = debounce_timer s.
Proof. unfold fetchMovies_settle, loadTrendingMovies_settle. by case_res. Qed.

Lemma work_tick dt s :
  debounce_due (debounce_timer s) (clock s + dt) = true -> work (on_tick dt s) < work s.
Proof.
  unfold on_tick, work. simpl. intros Hdue. rewrite Hdue.
  destruct (debounce_timer s) as [d|]; [| done]. unfold on_debounced. simpl.
  case_decide; simpl; [lia |].
  destruct (fetchMovies_work (searchTerm s)
    (set_input (searchTerm s) (searchTerm s) None
       (set_input (searchTerm s) (debouncedSearchTerm s) None (set_clock (clock s + dt) s))))
    as [Hlen ->].
  simpl in *. lia.
Qed.

Lemma work_settle id o s :
  id ∈ map task_id (pending s) -> work (on_settle id o s) < work s.
Proof.
  intros (t & rest & Ht)%take_task_found. unfold on_settle, work. rewrite Ht.
  pose proof (take_task_Some _ _ _ _ Ht) as [_ Hp%Permutation_length].
  destruct (same_fetches_settle_continuation o (set_pending rest s)) as [[H1 _] [H2 _]].
  destruct (settle_continuation_timer o (set_pending rest s)) as [T1 T2].
  simpl in Hp. destruct (task_stream t); rewrite ?H1, ?H2, ?T1, ?T2; simpl; lia.
Qed.

Lemma work_step s e : internal_event s e = true -> work (app_step s e) < work s.
Proof.
  destruct e; simpl; [done | apply work_tick |].
  intros Hin%bool_decide_eq_true. by apply work_settle.
Qed.

(** C24. Termination of the event loop's own activity: a sequence of
    events each of which does something (answers a fetch in flight or
    fires the debounce timeout) is at most as long as the work left, the
    number of fetches in flight plus two for a pending debounce timeout;
    without keystrokes the component always comes to rest. *)
Theorem internal_trace_bound s evs : internal_trace s evs = true -> length evs <= work s.
Proof.
  revert s. induction evs as [|e evs IH]; intros s; simpl; [lia |].
  intros [He Hevs]%andb_prop. specialize (IH _ Hevs). pose proof (work_step s e He). lia.
Qed.

End Pending.

(** ** Witnesses *)

#[local] Existing Instance tmdb_nokey.

Lemma internal_trace_bound_witness :
  let evs := [Settle 0 NetworkFailure; Settle 1 NetworkFailure; Tick 700] in
  internal_trace app_init evs = true /\ length evs <= work app_init.
Proof.
  intros evs. assert (internal_trace app_init evs = true) as H by reflexivity.
  split; [exact H | exact (internal_trace_bound app_init evs H)].
Defined.
