(* ===== verification/Progress.v ===== *)
(** * Progress: where the state goes when the user stops and the network answers

    An invariant of the reachable states of [App] on the timer of
    [useDebounce]: it is pending whenever the text typed differs from the
    debounced term, and its deadline is at most 700 ms away.  So 700 ms
    without a keystroke always bring the debounced term to the text typed
    (and, by [App.search_requests_step], issue the search for it).

    Then what the streams hold once every fetch in flight has answered in
    the order it was issued: the result of each stream's last successful
    fetch ([last_success]), and the error message as soon as one of them
    failed ([any_failure]). *)

From stdpp Require Import base list options.
From Stdlib Require Import Lia.
From Stdlib Require String.
Import String.StringSyntax.
From S2P Require Import Prelude JsValue CatalogClient Debounce App.

(** The part of the state the debounce timer reads and writes. *)
Definition input_part (s : app_state) : jsstr * jsstr * timer * nat :=
  (searchTerm s, debouncedSearchTerm s, debounce_timer s, clock s).

Definition timer_inv (s : app_state) : Prop :=
  (searchTerm s <> debouncedSearchTerm s -> debounce_timer s <> None) /\
  (forall d, debounce_timer s = Some d -> d <= clock s + DEBOUNCE_MS).

(** What settling fetches in the order they were issued leaves in a
    stream: the result of the last successful fetch of the stream, and
    whether one of them failed. *)
Section InOrderDefs.
Context `{!Catalog}.

Fixpoint last_success (st : stream) (f : task -> fetch_outcome) (l : list task) : option jsval :=
  match l with
  | [] => None
  | t :: l' =>
      match last_success st f l' with
      | Some r => Some r
      | None =>
          if decide (task_stream t = st) then
            match settle_result (f t) with Ok r => Some r | Err _ => None end
          else None
      end
  end.

Definition any_failure (st : stream) (f : task -> fetch_outcome) (l : list task) : bool :=
  existsb (fun t => bool_decide (task_stream t = st) &&
                    match settle_result (f t) with Ok _ => false | Err _ => true end) l.

End InOrderDefs.

(** ** The timer *)

Section Timer.
Context `{!Catalog}.

Lemma timer_inv_ext s s' : input_part s' = input_part s -> timer_inv s -> timer_inv s'.
Proof. unfold input_part, timer_inv. intros [= -> -> -> ->]. done. Qed.

Lemma timer_inv_settled s x c : input_part s = (x, x, None, c) -> timer_inv s.
Proof. unfold input_part, timer_inv. intros [= -> -> -> ->]. done. Qed.

Lemma fetchMovies_input q s : input_part (fetchMovies q s) = input_part s.
Proof. unfold fetchMovies. by case_res. Qed.

Lemma settle_input id o s : input_part (on_settle id o s) = input_part s.
Proof.
  unfold on_settle, fetchMovies_settle, loadTrendingMovies_settle.
  destruct (take_task id (pending s)) as [[t r]|]; [| done].
  destruct (task_stream t); by case_res.
Qed.

(** When the timeout fires, the debounced term becomes the text typed and
    the timer is cleared. *)
Lemma on_debounced_input s :
  debounce_timer s = None ->
  input_part (on_debounced s) = (searchTerm s, searchTerm s, None, clock s).
Proof.
  intros Ht. unfold on_debounced. case_decide as E.
  - unfold input_part. by rewrite Ht, E.
  - rewrite fetchMovies_input. unfold input_part. simpl. by rewrite Ht.
Qed.

Lemma timer_inv_tick dt s : timer_inv s -> timer_inv (on_tick dt s).
Proof.
  intros [Hne Hle]. unfold on_tick. destruct (debounce_due _ _) eqn:Hdue.
  - eapply timer_inv_settled, on_debounced_input. done.
  - split; simpl; [done |]. intros d Hd. specialize (Hle d Hd). lia.
Qed.

Lemma timer_inv_step s e : timer_inv s -> timer_inv (app_step s e).
Proof.
  destruct e as [v|dt|id o]; simpl; intros Hs.
  - unfold on_input. case_decide; [done |]. split; [done |].
    intros d [= <-]. simpl. lia.
  - by apply timer_inv_tick.
  - eapply timer_inv_ext; [apply settle_input | done].
Qed.

Lemma timer_inv_init : timer_inv app_init.
Proof.
  unfold app_init, app_mount, loadTrendingMovies.
  eapply timer_inv_ext; [simpl; apply fetchMovies_input |].
  split; [done |]. intros d [= <-]. simpl. lia.
Qed.

Lemma reachable_timer_inv s : reachable s -> timer_inv s.
Proof. induction 1; [apply timer_inv_init | by apply timer_inv_step]. Qed.

End Timer.

(** ** Settling in issue order *)

Section InOrder.
Context `{!Catalog}.

(** Settling the oldest fetch in flight, seen from one stream. *)
Lemma settle_head_stream s t rest o st :
  pending s = t :: rest ->
  pending (app_step s (Settle (task_id t) o)) = rest /\
  stream_of st (app_step s (Settle (task_id t) o)) =
    if decide (task_stream t = st) then
      match settle_result o with
      | Ok r => mk_stream r (error_msg (stream_of st s)) false
      | Err _ => mk_stream (items (stream_of st s)) (Some (error_message_of st)) false
      end
    else stream_of st s.
Proof.
  intros Hp. assert (E : take_task (task_id t) (pending s) = Some (t, rest)).
  { rewrite Hp. simpl. by case_decide. }
  split; [by eapply on_settle_pending |].
  rewrite (on_settle_found _ _ _ _ _ E).
  unfold fetchMovies_settle, loadTrendingMovies_settle.
  destruct (task_stream t), st; simpl; try case_decide; try done; by case_res.
Qed.

Lemma settle_in_order_ind l s f st :
  pending s = l ->
  let s' := run s (map (fun t => Settle (task_id t) (f t)) l) in
  items (stream_of st s') = default (items (stream_of st s)) (last_success st f l) /\
  error_msg (stream_of st s') =
    if any_failure st f l then Some (error_message_of st) else error_msg (stream_of st s).
Proof.
  revert s. induction l as [|t l IH]; intros s Hp; [done |].
  destruct (settle_head_stream s t l (f t) st Hp) as [Hp1 Hs1].
  cbn zeta in IH |- *. rewrite map_cons, run_cons.
  destruct (IH _ Hp1) as [Hi He]. rewrite Hi, He, Hs1. clear Hi He IH.
  unfold any_failure. simpl. fold (any_failure st f l).
  destruct (last_success st f l), (any_failure st f l); simpl;
    case_decide; case_bool_decide; try done; by case_res.
Qed.

End InOrder.

(** ** Claims *)

Section Claims.
Context `{!Catalog}.

(** C10. Progress of the debounced term (spec, property 1): in every
    reachable state, 700 ms without a keystroke bring the debounced term
    to the text typed, whatever the user typed before and whatever the
    fetches did; the reason is [timer_inv], which holds there: the timer
    is pending while the text differs from the debounced term, and due
    within 700 ms. *)
Theorem debounce_catches_up s :
  reachable s -> timer_inv s /\ debouncedSearchTerm (app_step s (Tick DEBOUNCE_MS)) = searchTerm s.
Proof.
  intros Hinv%reachable_timer_inv. split; [done |]. destruct Hinv as [Hne Hle].
  simpl. unfold on_tick.
  destruct (debounce_timer s) as [d|] eqn:Ht.
  - simpl. rewrite (proj2 (Nat.leb_le _ _)) by (apply Hle; done).
    pose proof (on_debounced_input
      (set_input (searchTerm s) (debouncedSearchTerm s) None (set_clock (clock s + DEBOUNCE_MS) s))
      eq_refl) as Hi.
    unfold input_part in Hi. simplify_eq. done.
  - simpl. destruct (decide (searchTerm s = debouncedSearchTerm s)); [done |].
    exfalso. by apply Hne.
Qed.

(** C11. Responses in issue order: when every fetch in flight settles in
    the order it was issued, each stream's list ends as the result of its
    last successful fetch (the list before, when none succeeds), but its
    error message is set as soon as any of them failed, even a failure
    older than the last success: in-order answers show the newest list,
    yet an older failure still hides it behind the error message. *)
Theorem settle_in_order s f st :
  let s' := run s (map (fun t => Settle (task_id t) (f t)) (pending s)) in
  items (stream_of st s') = default (items (stream_of st s)) (last_success st f (pending s)) /\
  error_msg (stream_of st s') =
    if any_failure st f (pending s) then Some (error_message_of st) else error_msg (stream_of st s).
Proof. by apply settle_in_order_ind. Qed.

End Claims.

(** ** Witnesses *)

#[local] Existing Instance tmdb_nokey.

Lemma debounce_catches_up_witness :
  let s := run app_init [KeyInput (str "ab"); Tick 300; KeyInput (str "abc")] in
  reachable s /\ timer_inv s /\ debouncedSearchTerm (app_step s (Tick DEBOUNCE_MS)) = str "abc".
Proof.
  assert (Hr : reachable (run app_init [KeyInput (str "ab"); Tick 300; KeyInput (str "abc")]))
    by (apply reachable_run; constructor).
  split; [exact Hr |]. exact (debounce_catches_up _ Hr).
Defined.
