(* ===== verification/Display.v ===== *)
(** * Display: the page shows the abstract state of each stream

    [Refinement.abs_stream] reads a stream's three hooks ([isLoading],
    [errorMessage], the list) as a [FetchState].  This file proves that the
    JSX of each section ([View.render_movies], [View.render_trending])
    renders exactly that state: the spinner for Loading, the message for
    Failure, the list (or the trending section's empty note) for Success
    and Idle.  So the refinement theorems about [abs_stream] are
    statements about what the user sees. *)

From stdpp Require Import base list options.
From Stdlib Require Import ZArith Lia.
From Stdlib Require String.
Import String.StringSyntax.
From S2P Require Import Prelude JsValue CatalogClient App FetchState Refinement View.

(** The section that shows an abstract state: [list_view] is what the
    section renders for a list. *)
Definition shows (list_view : jsval -> section -> Prop) (a : fetch_state) (sec : section) : Prop :=
  match a with
  | FLoading => sec = SSpinner
  | FFailure m => sec = SError m
  | FSuccess _ | FIdle => exists v, list_view v sec
  end.

(** The all-movies list: one card per movie, keyed by its id. *)
Definition cards_of (v : jsval) (sec : section) : Prop :=
  exists xs cs, v = JArray xs /\ sec = SCards cs /\
    Forall2 (fun m c => exists id, get_prop m (str "id") = Ok id /\ c = (id, m)) xs cs.

(** The trending list: the empty note, or up to five entries. *)
Definition trending_of (v : jsval) (sec : section) : Prop :=
  (v = JArray [] /\ sec = SNote NO_TRENDING_TEXT) \/
  (exists xs es, v = JArray xs /\ xs <> [] /\ sec = STrending es /\ length es = Nat.min 5 (length xs)).

Section Display.
Variable gt_zero_prim : jsval -> bool.

Lemma shown_error_abs ss :
  loading ss = false ->
  match shown_error (error_msg ss) with
  | Some m => abs_stream ss = FFailure m
  | None => abs_stream ss = FIdle \/ abs_stream ss = FSuccess (items ss)
  end.
Proof.
  unfold abs_stream, shown_error. intros ->.
  destruct (error_msg ss) as [[|c m]|]; simpl; auto.
Qed.

Lemma movie_card_of_id i m c :
  movie_card_of i m = Ok c -> exists id, get_prop m (str "id") = Ok id /\ c = (id, m).
Proof. unfold movie_card_of. intros H. res_inv H. simplify_eq. eauto. Qed.

Lemma render_movie_list_cards xs cs :
  res_mapi movie_card_of 0 xs = Ok cs -> cards_of (JArray xs) (SCards cs).
Proof.
  intros H. exists xs, cs. split_and!; [done | done |].
  eapply res_mapi_Forall2; [exact movie_card_of_id | exact H].
Qed.

Lemma trending_list_view xs sec :
  render_trending_list gt_zero_prim (JArray xs) = Ok sec -> trending_of (JArray xs) sec.
Proof.
  intros Hr. pose proof Hr as [-> | (xs' & es & [= <-] & Hne & -> & Hes)]%render_trending_list_Ok.
  - left. destruct xs; [done |]. exfalso. revert Hr. unfold render_trending_list. simpl.
    destruct (trending_entry_of 0 j), (res_mapi _ _ _); simpl; by intros [=].
  - right. exists xs, es. split_and!; [done | done | done |].
    rewrite (res_mapi_length _ _ _ _ Hes), length_take. lia.
Qed.

(** C22. The all-movies section renders the abstract state of the search
    stream: whenever its list is an array of movie objects, the render
    succeeds and shows the spinner for Loading, the message for Failure,
    and one card per movie for Success and Idle. *)
Theorem render_movies_shows_abs ss :
  movies_ok (items ss) = true ->
  exists sec, render_movies ss = Ok sec /\ shows cards_of (abs_stream ss) sec.
Proof.
  intros Hok. destruct (render_movies_ok ss Hok) as [sec Hsec].
  exists sec. split; [done |]. revert Hsec. unfold render_movies.
  destruct (loading ss) eqn:Hl; [intros [= <-]; unfold abs_stream; by rewrite Hl |].
  pose proof (shown_error_abs ss Hl) as Habs.
  destruct (shown_error (error_msg ss)) as [m|]; [intros [= <-]; by rewrite Habs |].
  destruct (items ss) as [| | | | |xs|]; try done. simpl.
  destruct (res_mapi movie_card_of 0 xs) as [cs|] eqn:Hcs; simpl; [| done].
  intros [= <-]. pose proof (render_movie_list_cards _ _ Hcs).
  destruct Habs as [-> | ->]; simpl; eauto.
Qed.

(** C23. The trending section renders the abstract state of the trending
    stream: the spinner for Loading, the message for Failure, and for
    Success and Idle the note "No trending movies found." on an empty list
    or the first five movies otherwise. *)
Theorem render_trending_shows_abs ts :
  movies_ok (items ts) = true ->
  exists sec, render_trending gt_zero_prim ts = Ok sec /\ shows trending_of (abs_stream ts) sec.
Proof.
  intros Hok. unfold render_trending.
  destruct (loading ts) eqn:Hl; [eexists; split; [done |]; unfold abs_stream; by rewrite Hl |].
  pose proof (shown_error_abs ts Hl) as Habs.
  destruct (shown_error (error_msg ts)) as [m|]; [eexists; split; [done |]; by rewrite Habs |].
  destruct (render_trending_list_ok gt_zero_prim _ Hok) as [sec Hsec].
  exists sec. split; [done |].
  destruct (items ts) as [| | | | |xs|]; try done.
  pose proof (trending_list_view _ _ Hsec).
  destruct Habs as [-> | ->]; simpl; eauto.
Qed.

End Display.

(** ** Witnesses *)

Lemma render_movies_shows_abs_witness :
  let ss := mk_stream (JArray [sample_movie 1 JNull]) (Some []) false in
  movies_ok (items ss) = true /\
  exists sec, render_movies ss = Ok sec /\ shows cards_of (abs_stream ss) sec.
Proof.
  intros ss. assert (movies_ok (items ss) = true) as H by reflexivity.
  split; [exact H | exact (render_movies_shows_abs ss H)].
Defined.

Lemma render_trending_shows_abs_witness :
  let ts := mk_stream (JArray []) (Some []) false in
  movies_ok (items ts) = true /\
  exists sec, render_trending (fun _ => false) ts = Ok sec /\ shows trending_of (abs_stream ts) sec.
Proof.
  intros ts. assert (movies_ok (items ts) = true) as H by reflexivity.
  split; [exact H | exact (render_trending_shows_abs (fun _ => false) ts H)].
Defined.
