(* ===== verification/Scheduler.v ===== *)
(** * Scheduler: the debounce of App.jsx against an explicit scheduler

    The spec (section on refactoring) describes the debounce as a
    scheduler with one timer, an input [onInputChange(value)] that
    replaces the pending value, and an output [onStableValue] fired once
    the value has stayed unchanged for 700 ms.  [stable_values] is that
    scheduler on a typing trace: a list of keystrokes, each with the time
    that passes before the next one.  It emits a value when the quiet time
    after it reaches 700 ms and the value differs from the last one
    emitted (the effect on [debouncedSearchTerm] only runs on a change).

    The theorem of this file is the refinement: on any typing trace whose
    keystrokes each change the text, App's composition of [useDebounce],
    [setDebouncedSearchTerm] and the effect that calls [fetchMovies] issues
    exactly the search requests for the values the scheduler emits, in
    order, and ends with the last emitted value as the debounced term. *)

From stdpp Require Import base list options.
From Stdlib Require Import Lia.
From Stdlib Require String.
Import String.StringSyntax.
From S2P Require Import Prelude JsValue CatalogClient Debounce App.

(** ** The scheduler of the spec *)

Fixpoint stable_values (prev : jsstr) (ks : list (jsstr * nat)) : list jsstr :=
  match ks with
  | [] => []
  | (v, d) :: ks' =>
      if DEBOUNCE_MS <=? d then
        if decide (v = prev) then stable_values prev ks' else v :: stable_values v ks'
      else stable_values prev ks'
  end.

Section Scheduler.
Context `{!Catalog}.

(** The search requests [fetchMovies] issues for a list of queries, from
    identifier [i] on. *)
Fixpoint issued_searches (i : nat) (vs : list jsstr) : list task :=
  match vs with
  | [] => []
  | v :: vs' =>
      let r := issued_by_fetchMovies v i in r ++ issued_searches (i + length r) vs'
  end.

Lemma fetchMovies_next_id q s :
  next_id (fetchMovies q s) = next_id s + length (issued_by_fetchMovies q (next_id s)).
Proof. unfold fetchMovies, issued_by_fetchMovies. destruct (movies_endpoint q); simpl; lia. Qed.

(** The effect of one keystroke that changes the text and the time after it. *)
Lemma typing_step s v d :
  v <> searchTerm s ->
  let s1 := run s [KeyInput v; Tick d] in
  let fired := (DEBOUNCE_MS <=? d) && bool_decide (v <> debouncedSearchTerm s) in
  let r := if fired then issued_by_fetchMovies v (next_id s) else [] in
  searchTerm s1 = v /\
  debouncedSearchTerm s1 = (if DEBOUNCE_MS <=? d then v else debouncedSearchTerm s) /\
  requests s1 = requests s ++ r /\ next_id s1 = next_id s + length r.
Proof.
  intros Hv.
  assert ((clock s + DEBOUNCE_MS <=? clock s + d) = (DEBOUNCE_MS <=? d)) as Hb
    by (apply Bool.eq_iff_eq_true; rewrite !Nat.leb_le; lia).
  cbn zeta. cbn [run fold_left app_step]. unfold on_input. case_decide; [done |].
  unfold on_tick, debounce_due, debounce_reset.
  cbn [set_clock set_input debounce_timer clock]. rewrite Hb.
  destruct (DEBOUNCE_MS <=? d); cbn [andb]; [| split_and!; by rewrite ?app_nil_r, ?Nat.add_0_r].
  unfold on_debounced. cbn [set_input searchTerm debouncedSearchTerm]. case_decide as Heq.
  - cbn in Heq. rewrite bool_decide_false by (intros Hn; by apply Hn). split_and!; by rewrite ?app_nil_r, ?Nat.add_0_r.
  - rewrite bool_decide_true by done.
    rewrite fetchMovies_debounced, fetchMovies_requests, fetchMovies_next_id.
    unfold fetchMovies. case_res; done.
Qed.

Lemma default_last_cons {A} (d x : A) l : default d (last (x :: l)) = default x (last l).
Proof. rewrite last_cons. by destruct (last l). Qed.

(** C25. Refinement of the explicit scheduler: on a typing trace whose
    keystrokes each change the text, App issues exactly the search
    requests for the values [stable_values] emits, in order and with
    consecutive identifiers, and ends with the last emitted value (or the
    old one) as its debounced term. *)
Theorem debounce_refines s ks :
  keys_change (searchTerm s) (map fst ks) ->
  let s' := run s (typing ks) in
  let vs := stable_values (debouncedSearchTerm s) ks in
  requests s' = requests s ++ issued_searches (next_id s) vs /\
  next_id s' = next_id s + length (issued_searches (next_id s) vs) /\
  debouncedSearchTerm s' = default (debouncedSearchTerm s) (last vs).
Proof.
  revert s. induction ks as [|[v d] ks IH]; intros s Hch; cbn zeta.
  { simpl. split_and!; by rewrite ?app_nil_r, ?Nat.add_0_r. }
  destruct Hch as [Hv Hch]. rewrite run_typing_cons. cbn [fst snd].
  destruct (typing_step s v d Hv) as (Hst & Hdb & Hrq & Hid).
  set (s1 := run s [KeyInput v; Tick d]) in *.
  rewrite <- Hst in Hch. destruct (IH s1 Hch) as (Hrq' & Hid' & Hdb'). clear IH.
  rewrite Hrq', Hid', Hdb'. cbn [stable_values].
  destruct (DEBOUNCE_MS <=? d); cbn [andb] in Hdb, Hrq, Hid |- *; rewrite Hdb, Hrq, Hid.
  - destruct (decide (v = debouncedSearchTerm s)) as [Heq|Hne].
    + rewrite bool_decide_false by (intros Hn; by apply Hn). rewrite <- Heq.
      split_and!; by rewrite ?app_nil_r, ?Nat.add_0_r.
    + rewrite bool_decide_true by done. cbn [issued_searches].
      rewrite default_last_cons, length_app, <- app_assoc. split_and!; [done | lia | done].
  - split_and!; by rewrite ?app_nil_r, ?Nat.add_0_r.
Qed.

(** C29. Clearing the input propagates (spec, debounce edge case): when
    the user empties a non-empty search box while a non-empty query is
    debounced, the scheduler emits the empty value 700 ms later, and App
    makes it the debounced term and issues exactly one request, for the
    discover endpoint. *)
Theorem clear_input_discovers s :
  searchTerm s <> [] -> debouncedSearchTerm s <> [] ->
  let s' := run s [KeyInput []; Tick DEBOUNCE_MS] in
  stable_values (debouncedSearchTerm s) [([], DEBOUNCE_MS)] = [[]] /\
  debouncedSearchTerm s' = [] /\
  requests s' = requests s ++ [mk_task (next_id s) SearchStream (catalog_url DISCOVER_ENDPOINT)].
Proof.
  intros Hst Hdb. cbn zeta.
  destruct (typing_step s [] DEBOUNCE_MS ltac:(congruence)) as (_ & Hd & Hr & _).
  cbn zeta in Hd, Hr. rewrite Nat.leb_refl in Hd, Hr. cbn [andb] in Hr.
  rewrite bool_decide_true in Hr by congruence.
  split_and!; [| done | by rewrite Hr].
  simpl. by rewrite decide_False by congruence.
Qed.

End Scheduler.

(** ** Witnesses *)

#[local] Existing Instance tmdb_nokey.

(** "ab" typed in two keystrokes, a pause, "abc", a short pause, back to
    "ab" after a pause: the scheduler emits "ab" once, then nothing for
    "abc" (replaced before 700 ms) and nothing for "ab" (unchanged). *)
Lemma debounce_refines_witness :
  let ks := [(str "a", 100%nat); (str "ab", 800%nat); (str "abc", 300%nat); (str "ab", 900%nat)] in
  keys_change (searchTerm app_init) (map fst ks) /\
  stable_values (debouncedSearchTerm app_init) ks = [str "ab"] /\
  let s' := run app_init (typing ks) in
  let vs := stable_values (debouncedSearchTerm app_init) ks in
  requests s' = requests app_init ++ issued_searches (next_id app_init) vs /\
  next_id s' = next_id app_init + length (issued_searches (next_id app_init) vs) /\
  debouncedSearchTerm s' = default (debouncedSearchTerm app_init) (last vs).
Proof.
  intros ks. assert (keys_change (searchTerm app_init) (map fst ks)) as H.
  { simpl. split_and!; try done; discriminate. }
  split_and!; [exact H | reflexivity |]. exact (debounce_refines app_init ks H).
Defined.

Lemma clear_input_discovers_witness :
  let s := run app_init [KeyInput (str "a"); Tick 700%nat; KeyInput (str "ab")] in
  searchTerm s <> [] /\ debouncedSearchTerm s <> [] /\
  let s' := run s [KeyInput []; Tick DEBOUNCE_MS] in
  stable_values (debouncedSearchTerm s) [([], DEBOUNCE_MS)] = [[]] /\
  debouncedSearchTerm s' = [] /\
  requests s' = requests s ++ [mk_task (next_id s) SearchStream (catalog_url DISCOVER_ENDPOINT)].
Proof.
  intros s. assert (searchTerm s <> []) as H1 by discriminate.
  assert (debouncedSearchTerm s <> []) as H2 by discriminate.
  split_and!; [exact H1 | exact H2 | exact (clear_input_discovers s H1 H2)].
Defined.
