(* ===== verification/ApiKey.v ===== *)
(** * ApiKey: every request the component sends carries the API key

    [API_KEY] (App.jsx 8) is read once from [import.meta.env] and
    [fetchTMDB] appends [&api_key=${API_KEY}] to every endpoint (App.jsx
    12); the configuration itself is outside the repository, so the key is
    a parameter ([template_key] writes a missing key as "undefined").  This
    file composes the client with the state machine of [App]: for every
    trace whose keystrokes are JavaScript strings, every request issued so
    far ends with the parameter [api_key] carrying the configured text,
    whatever was typed (the search text, once encoded, can neither add a
    parameter nor cut the key off).  Reading a query string takes the
    fuel [length url]; [split_all_last] shows it is enough. *)

From stdpp Require Import base list options.
From Stdlib Require Import ZArith Lia.
From Stdlib Require String.
Import String.StringSyntax.
From S2P Require Import Prelude JsValue UriEncode CatalogClient Debounce App.

Local Open Scope Z_scope.

(** An endpoint as the components write them: a path with no [?], then a
    query string with no [&]-breaking [#] and no [&] beyond its own. *)
Definition endpoint_ok (ep : jsstr) : Prop :=
  exists p r, ep = p ++ 63 :: r /\ Forall (fun c => c <> 63) p /\ Forall seg_char r.

(** The keystrokes of a trace are JavaScript strings: UTF-16 code units. *)
Definition keys_ok (evs : list event) : Prop :=
  Forall (fun e => match e with KeyInput v => code_units_ok v | _ => True end) evs.

(** ** Reading the last parameter *)

Lemma first_sep (sep : Z) (s : jsstr) :
  Forall (fun c => c <> sep) s \/
  exists x y, s = x ++ sep :: y /\ Forall (fun c => c <> sep) x.
Proof.
  induction s as [|c s [Hs | (x & y & -> & Hx)]]; [by left | |].
  - destruct (Z.eq_dec c sep) as [->|Hc]; [right; by exists [], s | left; by constructor].
  - destruct (Z.eq_dec c sep) as [->|Hc].
    + right. by exists [], (x ++ sep :: y).
    + right. exists (c :: x), y. split; [done | by constructor].
Qed.

(** Enough fuel: [split_all] with more fuel than code units ends with the
    segment after the last separator. *)
Lemma split_all_last (sep : Z) (b : jsstr) fuel s :
  Forall (fun c => c <> sep) b -> (length s < fuel)%nat ->
  last (split_all sep (s ++ sep :: b) fuel) = Some b.
Proof.
  intros Hb. revert s. induction fuel as [|fuel IH]; intros s Hlen; [lia |].
  destruct (first_sep sep s) as [Hs | (x & y & -> & Hx)].
  - simpl. rewrite split_at_first by done.
    destruct fuel; simpl; [done |]. by rewrite split_at_none.
  - cbn [split_all]. rewrite <- app_assoc, <- app_comm_cons, split_at_first by done.
    rewrite length_app in Hlen. simpl in Hlen.
    pose proof (IH y ltac:(lia)) as Hl. rewrite last_cons, Hl. done.
Qed.

Lemma last_map {A B} (f : A -> B) l x : last l = Some x -> last (map f l) = Some (f x).
Proof. intros (l' & ->)%last_Some. rewrite map_app. cbn [map]. apply last_snoc. Qed.

Lemma API_BASE_URL_plain : Forall (fun c => c <> 63) API_BASE_URL.
Proof. literal_forall. Qed.

(** The client's side: the last parameter of any URL it builds for a
    well-formed endpoint is the key. *)
Lemma tmdb_url_last_param key ep :
  key_plain (template_key key) -> endpoint_ok ep ->
  last (query_params (tmdb_url key ep)) = Some (str "api_key", template_key key).
Proof.
  intros Hkey (p & r & -> & Hp & Hr). unfold tmdb_url, query_params.
  replace (API_BASE_URL ++ (p ++ 63 :: r) ++ str "&api_key=" ++ template_key key) with
    ((API_BASE_URL ++ p) ++ 63 :: (r ++ 38 :: (str "api_key" ++ 61 :: template_key key)))
    by (by rewrite <- !app_assoc).
  rewrite split_at_first by (apply Forall_app; split; [apply API_BASE_URL_plain | done]).
  assert (Forall seg_char (str "api_key" ++ 61 :: template_key key)) as Hk by seg_forall.
  rewrite (split_at_none 35).
  2: { apply Forall_app; split; [eapply Forall_impl; [exact Hr | by intros ? []] |].
       constructor; [lia |]. eapply Forall_impl; [exact Hk | by intros ? []]. }
  cbn [fst]. rewrite (last_map _ _ (str "api_key" ++ 61 :: template_key key)).
  - by rewrite param_of_eq by literal_forall.
  - apply split_all_last; [eapply Forall_impl; [exact Hk | by intros ? []] |].
    rewrite !length_app. cbn [length]. rewrite !length_app. lia.
Qed.

(** ** The endpoints of the orchestrators *)

Lemma DISCOVER_ENDPOINT_ok : endpoint_ok DISCOVER_ENDPOINT.
Proof. exists (str "/discover/movie"), (str "sort_by=popularity.desc"). split_and!; [done | ..]; literal_forall. Qed.

Lemma TRENDING_ENDPOINT_ok : endpoint_ok TRENDING_ENDPOINT.
Proof. exists (str "/trending/movie/week"), []. split_and!; [done | literal_forall | constructor]. Qed.

Lemma movies_endpoint_ok q ep : code_units_ok q -> movies_endpoint q = Ok ep -> endpoint_ok ep.
Proof.
  unfold movies_endpoint. intros Hq. destruct (truthy (JString q)); [| intros [= <-]; apply DISCOVER_ENDPOINT_ok].
  destruct (encodeURIComponent q) as [e|] eqn:He; simpl; [intros [= <-] | done].
  pose proof (Forall_impl _ _ _ (encode_alphabet q e Hq He) safe_not_delim) as Hsafe.
  exists (str "/search/movie"), (str "query=" ++ e). split_and!; [done | literal_forall | seg_forall].
Qed.

(** ** The invariant over the state machine *)

Section Requests.
Context `{!Catalog}.

Definition urls_inv (s : app_state) : Prop :=
  code_units_ok (searchTerm s) /\
  Forall (fun t => exists ep, task_url t = catalog_url ep /\ endpoint_ok ep) (requests s).

Lemma urls_inv_issue st ep s : endpoint_ok ep -> urls_inv s -> urls_inv (issue_fetch st ep s).
Proof.
  intros Hep [Hq Hr]. split; [done |]. simpl. apply Forall_app; split; [done |].
  constructor; [by eexists | constructor].
Qed.

Lemma urls_inv_fetchMovies q s : code_units_ok q -> urls_inv s -> urls_inv (fetchMovies q s).
Proof.
  intros Hq Hs. unfold fetchMovies. destruct (movies_endpoint q) eqn:E.
  - apply urls_inv_issue; [by eapply movies_endpoint_ok | apply Hs].
  - apply Hs.
Qed.

Lemma urls_inv_settle id o s : urls_inv s -> urls_inv (on_settle id o s).
Proof.
  intros [Hq Hr]. unfold on_settle.
  destruct (take_task id (pending s)) as [[t rest]|]; [| by split].
  unfold fetchMovies_settle, loadTrendingMovies_settle. destruct (task_stream t); by case_res.
Qed.

Lemma urls_inv_tick dt s : urls_inv s -> urls_inv (on_tick dt s).
Proof.
  intros Hs. unfold on_tick, on_debounced. destruct (debounce_due _ _); [| apply Hs].
  case_decide; [apply Hs |]. apply urls_inv_fetchMovies; apply Hs.
Qed.

Lemma urls_inv_step s e :
  match e with KeyInput v => code_units_ok v | _ => True end ->
  urls_inv s -> urls_inv (app_step s e).
Proof.
  destruct e as [v|dt|id o]; simpl; intros He Hs.
  - unfold on_input. case_decide; [done |]. split; [done | apply Hs].
  - by apply urls_inv_tick.
  - by apply urls_inv_settle.
Qed.

Lemma urls_inv_init : urls_inv app_init.
Proof.
  unfold app_init, app_mount, loadTrendingMovies.
  apply urls_inv_issue; [apply TRENDING_ENDPOINT_ok |].
  apply urls_inv_fetchMovies; [constructor | split; constructor].
Qed.

Lemma urls_inv_run s evs : keys_ok evs -> urls_inv s -> urls_inv (run s evs).
Proof.
  intros Hevs. revert s. induction Hevs as [|e evs He _ IH]; intros s Hs; [done |].
  apply IH. by apply urls_inv_step.
Qed.

End Requests.

(** C26. Every request carries the key: from the first commit, on any
    trace whose keystrokes are JavaScript strings, every request issued
    (search, discover or trending) has as its last query parameter
    [api_key] with the configured text ("undefined" when the key is not
    set), provided that text has no [&] or [#]. *)
Theorem every_request_carries_key key evs :
  key_plain (template_key key) -> keys_ok evs ->
  Forall (fun t => last (query_params (task_url t)) = Some (str "api_key", template_key key))
    (requests (@run (tmdb_catalog key) (@app_init (tmdb_catalog key)) evs)).
Proof.
  intros Hkey Hevs.
  destruct (@urls_inv_run (tmdb_catalog key) _ evs Hevs (@urls_inv_init (tmdb_catalog key))) as [_ Hr].
  eapply Forall_impl; [exact Hr |]. intros t (ep & -> & Hep). by apply tmdb_url_last_param.
Qed.

(** ** Witnesses *)

Lemma every_request_carries_key_witness :
  let evs := [KeyInput (str "a&b#c"); Tick 700%nat; Settle 0 NetworkFailure] in
  key_plain (template_key None) /\ keys_ok evs /\
  Forall (fun t => last (query_params (task_url t)) = Some (str "api_key", template_key None))
    (requests (@run (tmdb_catalog None) (@app_init (tmdb_catalog None)) evs)).
Proof.
  intros evs.
  assert (key_plain (template_key None)) as Hk by (unfold key_plain, seg_char; literal_forall).
  assert (keys_ok evs) as He by (repeat constructor; literal_forall).
  split_and!; [exact Hk | exact He | exact (every_request_carries_key None evs Hk He)].
Defined.
