(* ===== verification/Logging.v ===== *)
(** * Logging: every error message on screen is backed by the operational log

    The spec (error handling) asks that every failure be downgraded to a
    generic message per stream and surfaced to an operational log.  In
    App.jsx the [catch] blocks do both: [console.error(label, err)] then
    [setErrorMessage(..)] (App.jsx 48-50 and 64-66).  This file proves,
    over all reachable states, that the log only grows and that a stream
    showing its error message has logged an error under its own label. *)

From stdpp Require Import base list options.
From Stdlib Require String.
Import String.StringSyntax.
From S2P Require Import Prelude JsValue CatalogClient Debounce App.

(** The log after a step: the same, or the same with entries appended. *)
Ltac log_prefix := simpl; first [done | by apply prefix_app_r].

Section Logging.
Context `{!Catalog}.

(** The stream shows its fixed error message. *)
Definition shows_error (st : stream) (s : app_state) : Prop :=
  error_msg (stream_of st s) = Some (error_message_of st).

(** An error was logged under the stream's label. *)
Definition logged (st : stream) (s : app_state) : Prop :=
  exists e, (log_label_of st, e) ∈ console s.

Definition log_inv (s : app_state) : Prop := forall st, shows_error st s -> logged st s.

(** A step that keeps the log as a prefix and shows a new error only with
    a new entry under that stream's label keeps the invariant. *)
Lemma log_inv_frame s s' :
  log_inv s -> console s `prefix_of` console s' ->
  (forall st, shows_error st s' -> shows_error st s \/ logged st s') ->
  log_inv s'.
Proof.
  intros Hinv Hpre Hnew st Hst. destruct (Hnew st Hst) as [Hold|]; [| done].
  destruct (Hinv st Hold) as [e He]. exists e. by eapply elem_of_prefix.
Qed.

Lemma logged_here st e s : logged st (log_error (log_label_of st) e s).
Proof. exists e. simpl. apply elem_of_app. right. by left. Qed.

(** [setErrorMessage("")] at the start of a fetch hides the message. *)
Lemma log_inv_fetchMovies q s : log_inv s -> log_inv (fetchMovies q s).
Proof.
  intros Hinv. unfold fetchMovies. destruct (movies_endpoint q) as [ep|e].
  - apply (log_inv_frame s); [done | log_prefix |].
    intros [|] Hst; [| by left]. unfold shows_error in Hst. simpl in Hst. by simplify_eq.
  - apply (log_inv_frame s); [done | log_prefix |].
    intros [|] Hst; [right; apply (logged_here SearchStream) | by left].
Qed.

Lemma log_inv_loadTrending s : log_inv s -> log_inv (loadTrendingMovies s).
Proof.
  intros Hinv. apply (log_inv_frame s); [done | log_prefix |].
  intros [|] Hst; [by left |]. unfold shows_error in Hst. simpl in Hst. by simplify_eq.
Qed.

Lemma log_inv_settle id o s : log_inv s -> log_inv (on_settle id o s).
Proof.
  intros Hinv. unfold on_settle. destruct (take_task id (pending s)) as [[t rest]|]; [| done].
  assert (log_inv (set_pending rest s)) as Hs1 by done.
  unfold fetchMovies_settle, loadTrendingMovies_settle.
  destruct (task_stream t), (settle_result o) as [r|e];
    (apply (log_inv_frame (set_pending rest s)); [done | log_prefix |]);
    intros [|] Hst; try (by left);
    first [ right; apply (logged_here SearchStream) | right; apply (logged_here TrendingStream) ].
Qed.

Lemma log_inv_tick dt s : log_inv s -> log_inv (on_tick dt s).
Proof.
  intros Hinv. unfold on_tick, on_debounced. destruct (debounce_due _ _); [| done].
  case_decide; [done |]. by apply log_inv_fetchMovies.
Qed.

Lemma log_inv_step s e : log_inv s -> log_inv (app_step s e).
Proof.
  destruct e; simpl; intros Hs.
  - unfold on_input. by case_decide.
  - by apply log_inv_tick.
  - by apply log_inv_settle.
Qed.

Lemma log_inv_init : log_inv app_init.
Proof.
  unfold app_init, app_mount. apply log_inv_loadTrending, log_inv_fetchMovies.
  intros [|]; unfold shows_error; simpl; discriminate.
Qed.

Lemma reachable_log_inv s : reachable s -> log_inv s.
Proof. induction 1; [apply log_inv_init | by apply log_inv_step]. Qed.

(** C28. Errors are logged: in every reachable state, a stream that shows
    its error message ("Error fetching movies." or "Error fetching
    trending movies!") has logged an error under its own label with
    [console.error]; and no step ever removes an entry from the log. *)
Theorem error_shown_is_logged s st e :
  reachable s -> (shows_error st s -> logged st s) /\
  console s `prefix_of` console (app_step s e).
Proof.
  intros Hr. split; [by apply reachable_log_inv |].
  destruct e as [v|dt|id o]; simpl.
  - unfold on_input. case_decide; log_prefix.
  - unfold on_tick, on_debounced. destruct (debounce_due _ _); [| log_prefix].
    case_decide; [log_prefix |]. unfold fetchMovies. case_res; log_prefix.
  - unfold on_settle. destruct (take_task id (pending s)) as [[t rest]|]; [| log_prefix].
    unfold fetchMovies_settle, loadTrendingMovies_settle.
    destruct (task_stream t); case_res; log_prefix.
Qed.

End Logging.

(** ** Witnesses *)

#[local] Existing Instance tmdb_nokey.

Lemma error_shown_is_logged_witness :
  let s := run app_init [Settle 1 NetworkFailure] in
  reachable s /\ shows_error TrendingStream s /\ logged TrendingStream s /\
  console s `prefix_of` console (app_step s (Tick 700)).
Proof.
  intros s. assert (reachable s) as Hr by (apply reachable_run; constructor).
  assert (shows_error TrendingStream s) as Hsh by reflexivity.
  destruct (error_shown_is_logged s TrendingStream (Tick 700) Hr) as [Hl Hp].
  split_and!; [exact Hr | exact Hsh | exact (Hl Hsh) | exact Hp].
Defined.
